(** * Holmes-Gateway, master gateway: a shallow embedding of
    [mastergateway/mastergateway.go] and the properties of its task
    routing, ticket encryption, authentication and storage proxy.

    Conventions of the embedding.
    - A Go [[]byte] is a [list Z] of values in [0, 256); bit operations are
      those of [Z].
    - A Go [error] value is its message; [nil] is [None].
    - A Go function returning [(T, error)] returns a pair; both components
      are kept because the source sometimes ignores the error.
    - A pointer [*tasking.Organization] is the index of the pointee in
      [conf.Organizations] (the only place such pointers are taken from);
      dereferencing an index that addresses nothing is a run-time panic.
    - Everything the process reads from or writes to its surroundings
      (the random source, the clock, the key store, the network, the
      iteration order of a map) is a field of [World], threaded through
      the effectful functions. *)

From Stdlib Require Import ZArith List Ascii String.
From stdpp Require Import gmap strings list fin_maps pretty.

Open Scope string_scope.
Open Scope list_scope.
Open Scope Z_scope.

Abbreviation bytes := (list Z).

(** ** Go errors *)

Record error := errors_New { Error : string }.

#[global] Instance error_eq_dec : EqDecision error.
Proof. solve_decision. Defined.

(** ** Records of the [tasking] package, as the gateway uses them *)

Module Organization.
Record t := mk { Name : string; Uri : string; Sources : list string }.
End Organization.

Module User.
Record t := mk { Name : string; PasswordHash : string; Id : Z }.
End User.

Module Task.
Record t := mk {
  PrimaryURI : string;
  SecondaryURI : string;
  Filename : string;
  Tasks : gmap string (list string);
  Tags : list string;
  Attempts : Z;
  Source : string;
  Download : bool }.
End Task.

Module Ticket.
Record t := mk {
  Expiration : Z;
  Tasks : list Task.t;
  SignerKeyId : string;
  Signature : bytes }.
End Ticket.

Module Encrypted.
Record t := mk {
  KeyFingerprint : string;
  EncryptedKey : bytes;
  Encrypted : bytes;
  IV : bytes }.
End Encrypted.

Module TaskError.
(** [tasking.MyError{Error: e}] wraps one error; the wrapper is kept as
    the error it wraps. *)
Record t := mk { TaskStruct : Task.t; Error : error }.
End TaskError.

(** A pointer to an element of [conf.Organizations]. *)
Abbreviation OrgPtr := nat.

(** ** Process-wide state *)

Record storageResult := {
  Sha256 : string;
  Sha1 : string;
  Md5 : string;
  Mime : string;
  Source : list string;
  Objname : list string;
  Submissions : list string }.

Record storageResponse := {
  ResponseCode : Z;
  Failure : string;
  Result : storageResult }.

Record config := {
  HTTP : string;
  SourcesKeysPath : string;
  TicketSignKeyPath : string;
  Organizations : list Organization.t;
  OwnOrganization : string;
  StorageURI : string;
  AutoTasks : gmap string (list string);
  CertificatePath : string;
  CertificateKeyPath : string;
  AllowedUsers : list User.t }.

(** ** What the gateway calls but does not define

    The functions of the repository's [tasking] package ([../utils]) that
    the gateway calls are taken as parameters: nothing is assumed about
    them beyond their signatures. *)
Class Tasking := {
  PublicKey : Type;
  PrivateKey : Type;
  RsaEncrypt : bytes → PublicKey → bytes * option error;
  AesEncrypt : bytes → bytes → bytes → bytes * option error;
  AesDecrypt : bytes → bytes → bytes → bytes * option error;
  Sign : bytes → PrivateKey → bytes * option error }.

(** The library calls whose results the gateway branches on. *)
Class GoLib := {
  (** [bcrypt.CompareHashAndPassword(hash, password)]: [None] on a match. *)
  CompareHashAndPassword : string → string → option error;
  (** [json.Marshal] at type [tasking.Ticket]. *)
  Marshal_Ticket : Ticket.t → bytes * option error;
  (** [json.Unmarshal] into a [[]tasking.Task]. *)
  Unmarshal_Tasks : string → error + list Task.t;
  (** [json.Unmarshal] into a [[]tasking.TaskError]. *)
  Unmarshal_TaskErrors : bytes → error + list TaskError.t;
  (** [base64.StdEncoding.EncodeToString]. *)
  EncodeToString : bytes → string;
  (** [http.NewRequest("GET", uri, nil)]: the error, if the uri is refused. *)
  NewRequest : string → option error;
  (** [json.Unmarshal(buf, &resp)] on a zero [storageResponse]: the value
      of [resp] after the call, and the error. *)
  Unmarshal_storageResponse : bytes → storageResponse * option error }.

(** The outbound request of [requestTaskList]: the organization's uri and
    the query parameters added to it, in the order they are added. *)
Record Request := { req_uri : string; req_query : list (string * string) }.

(** The sample proxy's view of an upload request: [Body] is what
    [ioutil.ReadAll(request.Body)] yields, [Form] the parsed form fields
    (body and url), [RawQuery] the url's query as [url.ParseQuery] reads it. *)
Record ProxyRequest := {
  Body : error + bytes;
  Form : gmap string (list string);
  RawQuery : gmap string (list string) }.

(** The storage service's answer; [RespBody] is what
    [ioutil.ReadAll(response.Body)] yields. *)
Record Response := { StatusCode : Z; RespBody : error + bytes }.

(** The outcome of a call: a returned value, or a run-time panic. *)
Inductive outcome (A : Type) : Type :=
| Ret (a : A)
| Panic.
Arguments Ret {A} a.
Arguments Panic {A}.

Section Gateway.
Context `{Tasking} `{GoLib}.

(** The package-level variables that are written at start-up only. *)
Record Globals := {
  conf : config;
  ticketSignKey : PrivateKey;
  ticketSignKeyName : string;
  srcRouter : gmap string OrgPtr;
  ownOrganization : option OrgPtr;
  users : gmap string User.t }.

(** The surroundings of a call. [keys] is the key store (the watcher's
    callbacks write it between calls); [entropy] holds the bytes
    [crypto/rand.Reader] has yet to deliver; [sent] lists the requests
    handed to [http.Client.Do] so far, oldest first; [partner] is what the
    network answers to a request, given the requests seen before it: an
    error of [Do], or the bytes read from the response body; [storage] is
    what [http.DefaultTransport] answers to a forwarded upload; [mapiter]
    is the order in which a [range] over a map visits its entries. *)
Record World := {
  keys : gmap string PublicKey;
  entropy : bytes;
  now : Z;
  sent : list Request;
  partner : list Request → Request → error + bytes;
  storage : ProxyRequest → error + Response;
  mapiter : ∀ A : Type, list A → list A }.

Definition set_entropy (e : bytes) (w : World) : World :=
  {| keys := keys w; entropy := e; now := now w; sent := sent w;
     partner := partner w; storage := storage w; mapiter := mapiter w |}.

Definition set_sent (s : list Request) (w : World) : World :=
  {| keys := keys w; entropy := entropy w; now := now w; sent := s;
     partner := partner w; storage := storage w; mapiter := mapiter w |}.

(** Go leaves the iteration order of a map unspecified; all it promises
    is that every entry is visited once. *)
Definition mapiter_ok (w : World) : Prop :=
  ∀ (A : Type) (l : list A), mapiter w A l ≡ₚ l.

(** ** Effects: state passing with panics *)

Definition M (A : Type) : Type := World → outcome A * World.

Definition ret {A} (a : A) : M A := λ w, (Ret a, w).

Definition bind {A B} (m : M A) (k : A → M B) : M B :=
  λ w, match m w with
       | (Ret a, w') => k a w'
       | (Panic, w') => (Panic, w')
       end.

Definition panic {A} : M A := λ w, (Panic, w).

Definition get : M World := λ w, (Ret w, w).

Notation "x <- m ;; k" := (bind m (λ x, k))
  (at level 100, m at next level, right associativity).

(** [io.ReadFull(rand.Reader, buf)] on a fresh buffer of [n] bytes: the
    next [n] bytes of the source, or an error when it runs dry, [io.EOF]
    if no byte was read and [io.ErrUnexpectedEOF] otherwise. *)
Definition ReadFull (n : nat) : M (bytes * option error) :=
  λ w, if decide (n ≤ length (entropy w))%nat
       then (Ret (take n (entropy w), None), set_entropy (drop n (entropy w)) w)
       else (Ret (entropy w ++ replicate (n - length (entropy w)) 0,
                  Some (errors_New (match entropy w with
                                    | [] => "EOF"
                                    | _ => "unexpected EOF"
                                    end))),
             set_entropy [] w).

(** [http.Client.Do] followed by [ioutil.ReadAll] of the body. *)
Definition Do (req : Request) : M (error + bytes) :=
  λ w, (Ret (partner w (sent w) req), set_sent (sent w ++ [req]) w).

Variable g : Globals.

(** ** [createTicket] *)

Definition validity : Z := 3 * (3600 * 1000000000).

Definition createTicket (tasks : list Task.t) : M (Ticket.t * option error) :=
  w <- get ;;
  let t := Ticket.mk (now w + validity) tasks (ticketSignKeyName g) [] in
  let '(msg, err) := Marshal_Ticket t in
  match err with
  | Some e => ret (t, Some e)
  | None =>
      let '(sig, err) := Sign msg (ticketSignKey g) in
      ret (Ticket.mk (Ticket.Expiration t) (Ticket.Tasks t)
             (Ticket.SignerKeyId t) sig, err)
  end.

(** ** [encryptKey], [encryptTicket] *)

Definition encryptKey (ks : gmap string PublicKey)
    (symKey : bytes) (asymKeyId : string) : bytes * option error :=
  match ks !! asymKeyId with
  | None => ([], Some (errors_New "Public Key not found"))
  | Some asymKey => RsaEncrypt symKey asymKey
  end.

Definition encryptTicket (ks : gmap string PublicKey)
    (ticket : bytes) (asymKeyId : string) (symKey iv : bytes)
    : option Encrypted.t * option error :=
  let '(encKey, err) := encryptKey ks symKey asymKeyId in
  match err with
  | Some e => (None, Some e)
  | None =>
      let '(encrypted, err) := AesEncrypt ticket symKey iv in
      match err with
      | Some e => (None, Some e)
      | None => (Some (Encrypted.mk asymKeyId encKey encrypted iv), err)
      end
  end.

(** ** [requestTaskList] *)

(** [IV[0] ^= 1]; indexing an empty slice panics. *)
Definition flipIV (iv : bytes) : option bytes :=
  match iv with
  | [] => None
  | b :: rest => Some (Z.lxor b 1 :: rest)
  end.

Definition requestTaskList (uri : string) (encryptedTicket : Encrypted.t)
    (symKey : bytes) : M (option error * bytes) :=
  match NewRequest uri with
  | Some e => ret (Some e, [])
  | None =>
      let q :=
        [("KeyFingerprint", Encrypted.KeyFingerprint encryptedTicket);
         ("EncryptedKey", EncodeToString (Encrypted.EncryptedKey encryptedTicket));
         ("IV", EncodeToString (Encrypted.IV encryptedTicket));
         ("Encrypted", EncodeToString (Encrypted.Encrypted encryptedTicket))] in
      resp <- Do {| req_uri := uri; req_query := q |} ;;
      match resp with
      | inl e => ret (Some e, [])
      | inr tskerrors =>
          match flipIV (Encrypted.IV encryptedTicket) with
          | None => panic
          | Some iv' =>
              let '(tskerrorsDec, _) := AesDecrypt tskerrors symKey iv' in
              ret (None, tskerrorsDec)
          end
      end
  end.

(** ** [authenticate] *)

Definition authenticate (username password : string)
    : option User.t * option error :=
  match users g !! username with
  | None => (None, Some (errors_New "Authentication failed"))
  | Some user =>
      match CompareHashAndPassword (User.PasswordHash user) password with
      | Some _ => (None, Some (errors_New "Authentication failed"))
      | None => (Some user, None)
      end
  end.

(** ** [sendTaskList] *)

(** [*org] for a pointer into [conf.Organizations]. *)
Definition deref (org : OrgPtr) : option Organization.t :=
  Organizations (conf g) !! org.

(** [org.Uri] is read first, then [tasks[0].Source]. A nil envelope
    returned with a nil error would be dereferenced by [requestTaskList]. *)
Definition sendTaskList (tasks : list Task.t) (org : OrgPtr)
    : M (option error * bytes) :=
  match deref org with
  | None => panic
  | Some o =>
      let uri := Organization.Uri o in
      match tasks with
      | [] => panic
      | task0 :: _ =>
          let asymKeyId := Task.Source task0 in
          r <- ReadFull 16 ;;
          match r with
          | (_, Some e) => ret (Some e, [])
          | (symKey, None) =>
              r <- ReadFull 16 ;;
              match r with
              | (_, Some e) => ret (Some e, [])
              | (iv, None) =>
                  r <- createTicket tasks ;;
                  match r with
                  | (_, Some e) => ret (Some e, [])
                  | (ticket, None) =>
                      match Marshal_Ticket ticket with
                      | (_, Some e) => ret (Some e, [])
                      | (ticketM, None) =>
                          w <- get ;;
                          match encryptTicket (keys w) ticketM asymKeyId symKey iv with
                          | (_, Some e) => ret (Some e, [])
                          | (None, None) => panic
                          | (Some et, None) => requestTaskList uri et symKey
                          end
                      end
                  end
              end
          end
      end
  end.

(** ** [handleTask] *)

Definition NoRouteError (task : Task.t) : TaskError.t :=
  TaskError.mk task (errors_New "No route for source!").

Definition SendError (e : error) (task : Task.t) : TaskError.t :=
  TaskError.mk task (errors_New ("Error while sending task! " +:+ Error e)).

Definition ParseError (e : error) (task : Task.t) : TaskError.t :=
  TaskError.mk task (errors_New ("Error while parsing result! " +:+ Error e)).

(** The body of the first loop: one task is either reported as
    unroutable or appended to its organization's list. *)
Definition route_step
    (st : list TaskError.t * gmap OrgPtr (list Task.t)) (task : Task.t)
    : list TaskError.t * gmap OrgPtr (list Task.t) :=
  let '(tskerrors, tasklists) := st in
  match srcRouter g !! Task.Source task with
  | None => (tskerrors ++ [NoRouteError task], tasklists)
  | Some org =>
      match tasklists !! org with
      | None => (tskerrors, <[org := [task]]> tasklists)
      | Some tasklist => (tskerrors, <[org := tasklist ++ [task]]> tasklists)
      end
  end.

Definition route_tasks (tskerrors : list TaskError.t) (tasks : list Task.t)
    : list TaskError.t * gmap OrgPtr (list Task.t) :=
  foldl route_step (tskerrors, ∅) tasks.

(** [for task := range tasklist { tskerrors = append(tskerrors, ...) }] *)
Definition report_all (mk : Task.t → TaskError.t)
    (tskerrors : list TaskError.t) (tasklist : list Task.t) : list TaskError.t :=
  foldl (λ acc task, acc ++ [mk task]) tskerrors tasklist.

(** The second loop, over the entries of [tasklists] in the order the
    [range] visits them. *)
Fixpoint dispatch (entries : list (OrgPtr * list Task.t))
    (tskerrors : list TaskError.t) : M (list TaskError.t) :=
  match entries with
  | [] => ret tskerrors
  | (org, tasklist) :: rest =>
      r <- sendTaskList tasklist org ;;
      match r with
      | (Some e, _) => dispatch rest (report_all (SendError e) tskerrors tasklist)
      | (None, tskOrgErrors) =>
          match Unmarshal_TaskErrors tskOrgErrors with
          | inl e => dispatch rest (report_all (ParseError e) tskerrors tasklist)
          | inr tskOrgErrorsP => dispatch rest (tskerrors ++ tskOrgErrorsP)
          end
      end
  end.

Definition range_map {V} (m : gmap OrgPtr V) : M (list (OrgPtr * V)) :=
  λ w, (Ret (mapiter w _ (map_to_list m)), w).

(** The second component is [None] for a nil slice. *)
Definition handleTask (tasksStr username password : string)
    : M (option error * option (list TaskError.t)) :=
  let tskerrors : list TaskError.t := [] in
  match authenticate username password with
  | (_, Some e) => ret (Some e, None)
  | (_, None) =>
      match Unmarshal_Tasks tasksStr with
      | inl e => ret (Some e, Some tskerrors)
      | inr tasks =>
          let '(tskerrors, tasklists) := route_tasks tskerrors tasks in
          entries <- range_map tasklists ;;
          tskerrors <- dispatch entries tskerrors ;;
          ret (None, Some tskerrors)
      end
  end.

(** ** The sample proxy: [RoundTrip] *)

Definition FormValue (request : ProxyRequest) (key : string) : string :=
  match Form request !! key with
  | Some (v :: _) => v
  | _ => ""
  end.

Definition autoTask (name source : string) (resp : storageResponse) : Task.t :=
  {| Task.PrimaryURI := StorageURI (conf g) +:+ Sha256 (Result resp);
     Task.SecondaryURI := "";
     Task.Filename := name;
     Task.Tasks := AutoTasks (conf g);
     Task.Tags := [];
     Task.Attempts := 0;
     Task.Source := source;
     Task.Download := true |}.

(** The result of the call of [sendTaskList] is dropped. A nil user
    returned with a nil error would be dereferenced at [user.Id], a nil
    [ownOrganization] at [org.Uri]. The requests of the model have a
    body to read: one with a nil [Body], on which [ioutil.ReadAll]
    panics, is not among them. *)
Definition RoundTrip (request : ProxyRequest)
    : M (option Response * option error) :=
  match Body request with
  | inl e => ret (None, Some e)
  | inr reqbuf =>
      let name := FormValue request "name" in
      let source := FormValue request "source" in
      let username := FormValue request "username" in
      let password := FormValue request "password" in
      match authenticate username password with
      | (_, Some e) => ret (None, Some e)
      | (None, None) => panic
      | (Some user, None) =>
          let form := <["user_id" := [pretty (User.Id user)]]> (RawQuery request) in
          let request :=
            {| Body := inr reqbuf; Form := Form request; RawQuery := form |} in
          w <- get ;;
          match storage w request with
          | inl e => ret (None, Some e)
          | inr response =>
              match RespBody response with
              | inl e => ret (None, Some e)
              | inr buf =>
                  let '(resp, _) := Unmarshal_storageResponse buf in
                  _ <- (if decide (ResponseCode resp = 1) then
                          if decide (size (AutoTasks (conf g)) ≠ 0%nat) then
                            let task := autoTask name source resp in
                            match ownOrganization g with
                            | None => panic
                            | Some own =>
                                _ <- sendTaskList [task] own ;; ret ()
                            end
                          else ret ()
                        else ret ()) ;;
                  ret (Some {| StatusCode := StatusCode response;
                               RespBody := inr buf |}, None)
              end
          end
      end
  end.

(** ** Vocabulary of the statements *)

(** The request [requestTaskList] builds from an envelope. *)
Definition request_of (uri : string) (et : Encrypted.t) : Request :=
  {| req_uri := uri;
     req_query :=
       [("KeyFingerprint", Encrypted.KeyFingerprint et);
        ("EncryptedKey", EncodeToString (Encrypted.EncryptedKey et));
        ("IV", EncodeToString (Encrypted.IV et));
        ("Encrypted", EncodeToString (Encrypted.Encrypted et))] |}.

(** [srcRouter[task.Source]] finds [org], resp. finds nothing. *)
Definition routed_to (org : OrgPtr) (task : Task.t) : Prop :=
  srcRouter g !! Task.Source task = Some org.

Definition unrouted (task : Task.t) : Prop :=
  srcRouter g !! Task.Source task = None.

#[global] Instance routed_to_dec org task : Decision (routed_to org task).
Proof. unfold routed_to. apply _. Defined.

#[global] Instance unrouted_dec task : Decision (unrouted task).
Proof. unfold unrouted. apply _. Defined.

(** All the tasks held by the groups of a [tasklists] map. *)
Definition grouped (tasklists : gmap OrgPtr (list Task.t)) : list Task.t :=
  concat ((map_to_list tasklists).*2).

(** The routing index and [ownOrganization] address organizations. *)
Definition routes_valid : Prop :=
  ∀ src org, srcRouter g !! src = Some org → is_Some (deref org).

(** An entry of [tasklists] that [sendTaskList] can take: a pointer
    with an organization behind it, and a first task. *)
Definition sendable (e : OrgPtr * list Task.t) : Prop :=
  is_Some (deref e.1) ∧ e.2 ≠ [].

Definition own_valid : Prop :=
  ∃ own, ownOrganization g = Some own ∧ is_Some (deref own).

(** The order in which the first loop creates the entries of
    [tasklists]: an organization enters when the first task routed to it
    is met (the [!found] branch). *)
Definition formation_order (tasks : list Task.t) : list OrgPtr :=
  foldl (λ seen task,
           match srcRouter g !! Task.Source task with
           | Some org => if decide (org ∈ seen) then seen else seen ++ [org]
           | None => seen
           end) [] tasks.

(** What one iteration of the second loop appends to [tskerrors], given
    what [sendTaskList] returned for the group. *)
Definition block_of (r : option error * bytes) (tasklist : list Task.t)
    : list TaskError.t :=
  match r with
  | (Some e, _) => SendError e <$> tasklist
  | (None, tskOrgErrors) =>
      match Unmarshal_TaskErrors tskOrgErrors with
      | inl e => ParseError e <$> tasklist
      | inr tskOrgErrorsP => tskOrgErrorsP
      end
  end.

(** [Dispatched w entries blocks w']: starting in [w], the groups of
    [entries] are sent one after the other, each from the world its
    predecessor left, the i-th yielding the i-th block of errors. *)
Inductive Dispatched : World → list (OrgPtr * list Task.t) →
    list (list TaskError.t) → World → Prop :=
| Dispatched_nil w : Dispatched w [] [] w
| Dispatched_cons w org tasklist r w1 rest blocks w2 :
    sendTaskList tasklist org w = (Ret r, w1) →
    Dispatched w1 rest blocks w2 →
    Dispatched w ((org, tasklist) :: rest) (block_of r tasklist :: blocks) w2.

End Gateway.

Arguments Dispatched_nil {_ _ _}.
Arguments Dispatched_cons {_ _ _}.

(** ** Start-up: [initSourceRouting], [initUsers] *)

Section Startup.
Context `{Tasking}.

(** The routing index and [ownOrganization] after the loop over
    [conf.Organizations]; [None] stands for the nil pointer, on which
    the function stops the process. *)
Definition initSourceRouting (c : config) : gmap string OrgPtr * option OrgPtr :=
  foldl (λ '(router, own) '(num, org),
           (foldl (λ r src, <[src := num]> r) router (Organization.Sources org),
            if decide (Organization.Name org = OwnOrganization c)
            then Some num else own))
        (∅, None) (imap pair (Organizations c)).

Definition initUsers (c : config) : gmap string User.t :=
  foldl (λ us user, <[User.Name user := user]> us) ∅ (AllowedUsers c).

(** The globals as [Start] leaves them, when it gets as far as
    [initHTTP]. *)
Definition Start (c : config) (signKey : PrivateKey) (signKeyName : string)
    : option Globals :=
  let '(router, own) := initSourceRouting c in
  match own with
  | None => None
  | Some _ =>
      Some {| conf := c; ticketSignKey := signKey;
              ticketSignKeyName := signKeyName; srcRouter := router;
              ownOrganization := own; users := initUsers c |}
  end.
End Startup.

(** ** A small concrete deployment

    Two organizations as in [config-master.json.example], with one-letter
    source names, and stand-ins for the cryptography and the codecs that
    are simple enough to evaluate. They fail where the real ones fail: a
    message too long for the RSA modulus, an AES key of the wrong size, an
    empty JSON document. *)
Module Demo.

Definition bytes_of (s : string) : bytes :=
  (λ a, Z.of_N (Ascii.N_of_ascii a)) <$> list_ascii_of_string s.

Definition string_of (bs : bytes) : string :=
  string_of_list_ascii ((λ b, Ascii.ascii_of_N (Z.to_N b)) <$> bs).

(** A public key is the byte size of its modulus; as with OAEP over
    SHA-256, a message longer than the modulus less 66 bytes is refused. *)
Definition tasking : Tasking := {|
  PublicKey := Z;
  PrivateKey := Z;
  RsaEncrypt msg k :=
    if decide (Z.of_nat (length msg) + 66 ≤ k)
    then ((λ b, (b + k) `mod` 256) <$> msg, None)
    else ([], Some (errors_New "crypto/rsa: message too long for RSA public key size"));
  AesEncrypt pt key iv :=
    if decide (length key = 16%nat)
    then ((λ b, Z.lxor b (Z.lxor (hd 0 key) (hd 0 iv))) <$> pt, None)
    else ([], Some (errors_New "crypto/aes: invalid key size"));
  AesDecrypt ct key iv :=
    if decide (length key = 16%nat)
    then ((λ b, Z.lxor b (Z.lxor (hd 0 key) (hd 0 iv))) <$> ct, None)
    else ([], Some (errors_New "crypto/aes: invalid key size"));
  Sign msg k := ((λ b, (b + k) `mod` 256) <$> msg, None) |}.

Definition task_from (source : string) : Task.t :=
  {| Task.PrimaryURI := "sample"; Task.SecondaryURI := "";
     Task.Filename := "sample.exe"; Task.Tasks := ∅;
     Task.Tags := []; Task.Attempts := 0; Task.Source := source;
     Task.Download := true |}.

(** The wire form of a batch is one letter per task: the task's source. *)
Definition golib : GoLib := {|
  CompareHashAndPassword hash password :=
    if decide (hash = "bcrypt:" +:+ password) then None
    else Some (errors_New "crypto/bcrypt: hashedPassword is not the hash of the given password");
  Marshal_Ticket t :=
    (Ticket.Signature t ++
     concat ((λ task, bytes_of (Task.Source task)) <$> Ticket.Tasks t), None);
  Unmarshal_Tasks s :=
    match s with
    | "" => inl (errors_New "unexpected end of JSON input")
    | _ => inr ((λ a, task_from (String a "")) <$> list_ascii_of_string s)
    end;
  Unmarshal_TaskErrors bs :=
    match bs with
    | [] => inl (errors_New "unexpected end of JSON input")
    | [91; 93] => inr []
    | _ => inl (errors_New "invalid character looking for beginning of value")
    end;
  EncodeToString := string_of;
  NewRequest uri :=
    match uri with
    | String ":" _ => Some (errors_New "parse: missing protocol scheme")
    | _ => None
    end;
  Unmarshal_storageResponse bs :=
    match bs with
    | 1 :: _ =>
        ({| ResponseCode := 1; Failure := "";
            Result := {| Sha256 := "e3b0c442"; Sha1 := ""; Md5 := ""; Mime := "";
                         Source := []; Objname := []; Submissions := [] |} |}, None)
    | _ =>
        ({| ResponseCode := 0; Failure := "";
            Result := {| Sha256 := ""; Sha1 := ""; Md5 := ""; Mime := "";
                         Source := []; Objname := []; Submissions := [] |} |},
         Some (errors_New "unexpected end of JSON input"))
    end |}.

#[local] Existing Instance tasking.
#[local] Existing Instance golib.

Definition cfg : config := {|
  HTTP := ":8090"; SourcesKeysPath := "keys"; TicketSignKeyPath := "keys/sign.priv";
  Organizations :=
    [Organization.mk "Org1" "http://localhost:8080/task/" ["f"; "b"];
     Organization.mk "Org2" "http://localhost:8081/task/" ["l"]];
  OwnOrganization := "Org1";
  StorageURI := "http://10.0.4.79:8017/samples/";
  AutoTasks := {["PEINFO" := [""]; "YARA" := [""]]};
  CertificatePath := "cert.pem"; CertificateKeyPath := "cert-key.pem";
  AllowedUsers := [User.mk "test" "bcrypt:secret" 0; User.mk "test2" "bcrypt:secret" 1] |}.

Definition globals : Globals := default
  {| conf := cfg; ticketSignKey := 0; ticketSignKeyName := "";
     srcRouter := ∅; ownOrganization := None; users := ∅ |}
  (Start cfg 7 "sign").

(** The partner answers every request with an empty body; the range
    over the groups visits them as the map stores them. *)
Definition world : World := {|
  keys := {["f" := 256; "b" := 64; "l" := 256]};
  entropy := Z.of_nat <$> seq 1 200;
  now := 1478131200000000000;
  sent := [];
  partner _ _ := inr [];
  storage _ := inr {| StatusCode := 200; RespBody := inr [1] |};
  mapiter A l := l |}.

Definition upload : ProxyRequest := {|
  Body := inr (bytes_of "name=sample.exe&source=f&username=test&password=secret");
  Form := {["name" := ["sample.exe"]; "source" := ["f"];
            "username" := ["test"]; "password" := ["secret"]]};
  RawQuery := ∅ |}.

Definition batch (s : string) : list Task.t :=
  (λ a, task_from (String a "")) <$> list_ascii_of_string s.

Definition session_key : bytes := Z.of_nat <$> seq 1 16.
Definition session_iv : bytes := Z.of_nat <$> seq 17 16.

(** The task the proxy makes of [upload]. *)
Definition upload_task : Task.t :=
  {| Task.PrimaryURI := "http://10.0.4.79:8017/samples/e3b0c442";
     Task.SecondaryURI := "";
     Task.Filename := "sample.exe";
     Task.Tasks := {["PEINFO" := [""]; "YARA" := [""]]};
     Task.Tags := [];
     Task.Attempts := 0;
     Task.Source := "f";
     Task.Download := true |}.

Definition no_json : error := errors_New "unexpected end of JSON input".

End Demo.

(** ** The key store's callbacks and the task endpoint *)

(** [tasking.LoadPublicKey(name)]: the key, the name it is filed under,
    and the error. It belongs to the [tasking] package and is taken as a
    parameter. *)
Class KeyFiles `{Tasking} := {
  LoadPublicKey : string → PublicKey * string * option error }.

(** [json.Marshal] at type [tasking.TaskError]. *)
Class JsonErrors := {
  Marshal_TaskError : TaskError.t → bytes * option error }.

(** What a handler has put into its [http.ResponseWriter]: the headers it
    set, the status the client gets (200 unless [WriteHeader] is called
    before the first write), and the bytes written. *)
Record Reply := {
  Header : gmap string (list string);
  Status : Z;
  Written : bytes }.

Definition bytes_of_string (s : string) : bytes :=
  (λ a, Z.of_N (Ascii.N_of_ascii a)) <$> list_ascii_of_string s.

(** [w.Header().Set(key, value)] *)
Definition Header_Set (key value : string) (rw : Reply) : Reply :=
  {| Header := <[key := [value]]> (Header rw); Status := Status rw;
     Written := Written rw |}.

(** [w.Write(b)] *)
Definition Write (b : bytes) (rw : Reply) : Reply :=
  {| Header := Header rw; Status := Status rw; Written := Written rw ++ b |}.

(** [http.Error(w, msg, code)] on a writer nothing was written to: two
    headers, the status, and the message followed by a newline. *)
Definition http_Error (msg : string) (code : Z) (rw : Reply) : Reply :=
  let rw := Header_Set "Content-Type" "text/plain; charset=utf-8" rw in
  let rw := Header_Set "X-Content-Type-Options" "nosniff" rw in
  {| Header := Header rw; Status := code;
     Written := Written rw ++ bytes_of_string msg ++ [10] |}.

Section Endpoints.
Context `{Tasking} `{GoLib} `{!KeyFiles} `{JsonErrors}.

Notation "x <- m ;; k" := (bind m (λ x, k))
  (at level 100, m at next level, right associativity).

Definition set_keys (ks : gmap string PublicKey) (w : World) : World :=
  {| keys := ks; entropy := entropy w; now := now w; sent := sent w;
     partner := partner w; storage := storage w; mapiter := mapiter w |}.



Variable g : Globals.

(** [httpRequestIncomingTask]: the reply to a task submission. *)
Definition httpRequestIncomingTask (r : ProxyRequest) : M Reply :=
  let rw := {| Header := ∅; Status := 200; Written := [] |} in
  let rw := Header_Set "Access-Control-Allow-Origin" "*" rw in
  let task := FormValue r "task" in
  let username := FormValue r "username" in
  let password := FormValue r "password" in
  res <- handleTask g task username password ;;
  match res with
  | (Some err, _) => ret (http_Error (Error err) 500 rw)
  | (None, tskerrors) =>
      ret (foldl (λ rw j, Write [10; 10] (Write (Marshal_TaskError j).1 rw))
             rw (default [] tskerrors))
  end.

(** ** Further vocabulary *)

(** The uris of the organizations behind the entries of a group map. *)
Definition entry_uris (entries : list (OrgPtr * list Task.t)) : list string :=
  omap (λ e, Organization.Uri <$> deref g e.1) entries.

(** What a call leaves alone, and what it may add: the request sent,
    if any, goes to [uri]. *)
Definition framed (uri : option string) (w w' : World) : Prop :=
  keys w' = keys w ∧ now w' = now w ∧ partner w' = partner w
  ∧ storage w' = storage w ∧ mapiter w' = mapiter w
  ∧ entropy w' `suffix_of` entropy w
  ∧ (sent w' = sent w
     ∨ ∃ req, sent w' = sent w ++ [req] ∧ Some (req_uri req) = uri).

(** The same over several calls: only bytes drawn, only requests added. *)
Definition untouched (w w' : World) : Prop :=
  keys w' = keys w ∧ now w' = now w ∧ partner w' = partner w
  ∧ storage w' = storage w ∧ mapiter w' = mapiter w
  ∧ entropy w' `suffix_of` entropy w
  ∧ sent w `prefix_of` sent w'.

(** No partner answer decodes: every request either fails in transport
    or is answered by bytes that, decrypted under any key and IV, are not
    a list of task errors. *)
Definition unanswered (w : World) : Prop :=
  ∀ hist req,
    match partner w hist req with
    | inl _ => True
    | inr body => ∀ key iv, ∃ e, Unmarshal_TaskErrors (AesDecrypt body key iv).1 = inl e
    end.

(** What [sendTaskList] returned yields no decoded answer: an error, or
    bytes that are not a list of task errors. *)
Definition undecoded (r : option error * bytes) : Prop :=
  match r with
  | (Some _, _) => True
  | (None, tskOrgErrors) =>
      match Unmarshal_TaskErrors tskOrgErrors with
      | inl _ => True
      | inr _ => False
      end
  end.

(** Along the run of the second loop over [entries] from [w], no group
    gets a decoded answer. *)
Fixpoint none_decoded (entries : list (OrgPtr * list Task.t)) (w : World) : Prop :=
  match entries with
  | [] => True
  | (org, tasklist) :: rest =>
      match sendTaskList g tasklist org w with
      | (Ret r, w1) => undecoded r ∧ none_decoded rest w1
      | (Panic, _) => True
      end
  end.

(** The ticket [createTicket] hands to [Sign]'s caller before signing. *)
Definition unsigned_ticket (w : World) (tasks : list Task.t) : Ticket.t :=
  Ticket.mk (now w + validity) tasks (ticketSignKeyName g) [].

End Endpoints.

(** The indices of the organizations that declare a source, resp. carry a
    name, in the order of [conf.Organizations]. *)
Definition declaring (src : string) (orgs : list Organization.t) : list OrgPtr :=
  (filter (λ p, src ∈ Organization.Sources p.2) (imap pair orgs)).*1.

Definition named (name : string) (orgs : list Organization.t) : list OrgPtr :=
  (filter (λ p, Organization.Name p.2 = name) (imap pair orgs)).*1.

(** The listed users of a given name. *)
Definition users_named (name : string) (us : list User.t) : list User.t :=
  filter (λ u, User.Name u = name) us.

(** Stand-ins for the key loader and the error codec on the small
    deployment: a key file is named after its fingerprint, with the
    extension [.pub], and holds a key of 256 bytes; a file whose name is
    empty does not load. An error record is written as its task's source
    and its message. *)
Module DemoEndpoints.

Definition key_of_size (k : Z) : @PublicKey Demo.tasking := k.

Definition keyfiles : @KeyFiles Demo.tasking := {|
  LoadPublicKey name :=
    match name with
    | "" => (key_of_size 0, "", Some (errors_New "open : no such file or directory"))
    | _ => (key_of_size 256, name, None)
    end |}.

Definition jsonerrors : JsonErrors := {|
  Marshal_TaskError j :=
    (bytes_of_string (Task.Source (TaskError.TaskStruct j)) ++ [58]
       ++ bytes_of_string (Error (TaskError.Error j)), None) |}.

Definition submission (task username password : string) : ProxyRequest := {|
  Body := inr [];
  Form := {["task" := [task]; "username" := [username]; "password" := [password]]};
  RawQuery := ∅ |}.

(** A world in which no partner can be reached. *)
Definition outage : @World Demo.tasking := {|
  keys := keys Demo.world;
  entropy := entropy Demo.world;
  now := now Demo.world;
  sent := [];
  partner _ _ := inl (errors_New "dial tcp: connection refused");
  storage := storage Demo.world;
  mapiter A l := l |}.

(** A world whose random source has 20 bytes left. *)
Definition drained : @World Demo.tasking := {|
  keys := keys Demo.world;
  entropy := Z.of_nat <$> seq 1 20;
  now := now Demo.world;
  sent := [];
  partner := partner Demo.world;
  storage := storage Demo.world;
  mapiter A l := l |}.

(** A world whose key store has no key for the source "f". *)
Definition unkeyed : @World Demo.tasking := {|
  keys := {["l" := 256]};
  entropy := entropy Demo.world;
  now := now Demo.world;
  sent := [];
  partner := partner Demo.world;
  storage := storage Demo.world;
  mapiter A l := l |}.

(** A world in which Org1 cannot be reached and Org2 answers two bytes
    that decrypt to no list of task errors. *)
Definition garbled : @World Demo.tasking := {|
  keys := keys Demo.world;
  entropy := entropy Demo.world;
  now := now Demo.world;
  sent := [];
  partner _ req :=
    if decide (req_uri req = "http://localhost:8081/task/")
    then inr [75; 77]
    else inl (errors_New "dial tcp: connection refused");
  storage := storage Demo.world;
  mapiter A l := l |}.

(** A storage service that refuses the upload. *)
Definition refusing : @World Demo.tasking := {|
  keys := keys Demo.world;
  entropy := entropy Demo.world;
  now := now Demo.world;
  sent := [];
  partner := partner Demo.world;
  storage _ := inr {| StatusCode := 200; RespBody := inr [0] |};
  mapiter A l := l |}.

End DemoEndpoints.

(** * Properties *)

(** ** The first loop of [handleTask]: routing *)

Section Routing.
Context `{Tasking} (g : Globals).

Implicit Types (task : Task.t) (tasks : list Task.t) (org : OrgPtr).
Implicit Types (st : list TaskError.t * gmap OrgPtr (list Task.t)).

Lemma route_fold_errors st tasks :
  (foldl (route_step g) st tasks).1
  = st.1 ++ (NoRouteError <$> filter (unrouted g) tasks).
Proof.
  revert st. induction tasks as [|task tasks IH]; intros [errs m]; simpl.
  - by rewrite app_nil_r.
  - rewrite IH, filter_cons.
    destruct (srcRouter g !! Task.Source task) as [org|] eqn:Hr; simpl.
    + rewrite decide_False by (unfold unrouted; congruence).
      by destruct (m !! org).
    + rewrite decide_True by done. by rewrite <- app_assoc.
Qed.

Lemma route_fold_lookup st tasks org :
  (foldl (route_step g) st tasks).2 !! org
  = match st.2 !! org, filter (routed_to g org) tasks with
    | None, [] => None
    | None, l => Some l
    | Some l0, l => Some (l0 ++ l)
    end.
Proof.
  revert st. induction tasks as [|task tasks IH]; intros [errs m]; simpl.
  - destruct (m !! org); [by rewrite app_nil_r | done].
  - rewrite IH, filter_cons.
    destruct (srcRouter g !! Task.Source task) as [org'|] eqn:Hr; simpl.
    + destruct (decide (org' = org)) as [->|Hne].
      * rewrite decide_True by done.
        destruct (m !! org) as [l0|] eqn:Hm; simpl;
          rewrite lookup_insert_eq; [by rewrite <- app_assoc | done].
      * rewrite decide_False by (unfold routed_to; congruence).
        destruct (m !! org') as [l0|] eqn:Hm; simpl;
          by rewrite lookup_insert_ne.
    + by rewrite decide_False by (unfold routed_to; congruence).
Qed.

Lemma grouped_insert_fresh (m : gmap OrgPtr (list Task.t)) org tasks :
  m !! org = None → grouped (<[org := tasks]> m) ≡ₚ tasks ++ grouped m.
Proof.
  intros Hm. unfold grouped. by rewrite map_to_list_insert.
Qed.

Lemma grouped_lookup (m : gmap OrgPtr (list Task.t)) org tasks :
  m !! org = Some tasks → grouped m ≡ₚ tasks ++ grouped (delete org m).
Proof.
  intros Hm. unfold grouped. by rewrite <- (map_to_list_delete m org tasks Hm).
Qed.

Lemma grouped_insert_append (m : gmap OrgPtr (list Task.t)) org tasks task :
  m !! org = Some tasks →
  grouped (<[org := tasks ++ [task]]> m) ≡ₚ grouped m ++ [task].
Proof.
  intros Hm. rewrite <- insert_delete_eq.
  rewrite grouped_insert_fresh by apply lookup_delete_eq.
  rewrite (grouped_lookup m org tasks Hm).
  rewrite <- !app_assoc. apply Permutation_app_head, Permutation_app_comm.
Qed.

(** One iteration moves the task into exactly one of the two sides. *)
Lemma route_step_perm st task :
  (TaskError.TaskStruct <$> (route_step g st task).1) ++ grouped (route_step g st task).2
  ≡ₚ ((TaskError.TaskStruct <$> st.1) ++ grouped st.2) ++ [task].
Proof.
  destruct st as [errs m]; simpl.
  destruct (srcRouter g !! Task.Source task) as [org|]; simpl.
  - destruct (m !! org) as [l0|] eqn:Hm; simpl.
    + by rewrite grouped_insert_append, app_assoc.
    + rewrite grouped_insert_fresh by done.
      rewrite <- !app_assoc. apply Permutation_app_head, Permutation_app_comm.
  - rewrite fmap_app; simpl. rewrite <- !app_assoc.
    apply Permutation_app_head, Permutation_app_comm.
Qed.

Lemma route_fold_perm st tasks :
  (TaskError.TaskStruct <$> (foldl (route_step g) st tasks).1)
    ++ grouped (foldl (route_step g) st tasks).2
  ≡ₚ ((TaskError.TaskStruct <$> st.1) ++ grouped st.2) ++ tasks.
Proof.
  revert st. induction tasks as [|task tasks IH]; intros st; simpl.
  - by rewrite app_nil_r.
  - rewrite IH, route_step_perm. rewrite <- !app_assoc. done.
Qed.

Lemma grouped_empty : grouped (∅ : gmap OrgPtr (list Task.t)) = [].
Proof. unfold grouped. by rewrite map_to_list_empty. Qed.

Lemma route_tasks_errors tasks :
  (route_tasks g [] tasks).1 = NoRouteError <$> filter (unrouted g) tasks.
Proof. unfold route_tasks. by rewrite route_fold_errors. Qed.

Lemma route_tasks_lookup tasks org :
  (route_tasks g [] tasks).2 !! org
  = match filter (routed_to g org) tasks with
    | [] => None
    | l => Some l
    end.
Proof.
  unfold route_tasks. rewrite route_fold_lookup; simpl. by rewrite lookup_empty.
Qed.

(** A group is the batch filtered by its organization, and has a task. *)
Lemma route_tasks_group tasks org tasklist :
  (route_tasks g [] tasks).2 !! org = Some tasklist →
  tasklist = filter (routed_to g org) tasks ∧ tasklist ≠ [].
Proof.
  rewrite route_tasks_lookup. destruct (filter _ tasks); by intros [= <-].
Qed.

(** C1. Routing partitions the batch. After the first loop of
    [handleTask] on a batch: the error list holds one "No route for
    source!" record for each task whose source has no entry in the
    routing index, in batch order; the group of an organization holds
    exactly the tasks of the batch whose source is routed to it, in
    batch order, and an organization to which nothing is routed has no
    group; the unrouted tasks together with the tasks of all groups are
    a rearrangement of the batch, so every task lands in exactly one
    place, none lost and none duplicated; and a group holds tasks of the
    batch only. *)
Theorem route_tasks_partition tasks :
  (route_tasks g [] tasks).1 = NoRouteError <$> filter (unrouted g) tasks
  ∧ (∀ org, (route_tasks g [] tasks).2 !! org
            = match filter (routed_to g org) tasks with
              | [] => None
              | l => Some l
              end)
  ∧ tasks ≡ₚ (TaskError.TaskStruct <$> (route_tasks g [] tasks).1)
              ++ grouped (route_tasks g [] tasks).2
  ∧ (∀ org tasklist task,
       (route_tasks g [] tasks).2 !! org = Some tasklist →
       task ∈ tasklist → task ∈ tasks ∧ routed_to g org task).
Proof.
  split_and!.
  - apply route_tasks_errors.
  - apply route_tasks_lookup.
  - unfold route_tasks. rewrite route_fold_perm; simpl. by rewrite grouped_empty.
  - intros org tasklist task Hl Hin.
    apply route_tasks_group in Hl as [-> _].
    by apply list_elem_of_filter in Hin as [? ?].
Qed.

End Routing.

(** ** Dispatching one group: [sendTaskList] and what it calls *)

Section Sending.
Context `{Tasking} `{GoLib} (g : Globals).

Implicit Types (w : World) (tasks : list Task.t) (org : OrgPtr).

Lemma ReadFull_inv n w buf err w' :
  ReadFull n w = (Ret (buf, err), w') →
  keys w' = keys w ∧ sent w' = sent w ∧ partner w' = partner w
  ∧ now w' = now w
  ∧ (err = None → length buf = n).
Proof.
  unfold ReadFull. case_decide; intros [= <- <- <-]; simpl; split_and!; try done.
  intros _. rewrite length_take. lia.
Qed.

Lemma encryptTicket_inv ks ticket asymKeyId symKey iv :
  (∃ e, encryptTicket ks ticket asymKeyId symKey iv = (None, Some e))
  ∨ (∃ key,
       ks !! asymKeyId = Some key
       ∧ (RsaEncrypt symKey key).2 = None
       ∧ (AesEncrypt ticket symKey iv).2 = None
       ∧ encryptTicket ks ticket asymKeyId symKey iv
         = (Some (Encrypted.mk asymKeyId (RsaEncrypt symKey key).1
                    (AesEncrypt ticket symKey iv).1 iv), None)).
Proof.
  unfold encryptTicket, encryptKey.
  destruct (ks !! asymKeyId) as [key|]; [|left; eauto].
  destruct (RsaEncrypt symKey key) as [encKey [e|]] eqn:Hrsa; [left; eauto|].
  destruct (AesEncrypt ticket symKey iv) as [encrypted [e|]] eqn:Haes; [left; eauto|].
  right. exists key. rewrite Hrsa. by simpl.
Qed.

Lemma requestTaskList_unfold uri et symKey w :
  requestTaskList uri et symKey w
  = match NewRequest uri with
    | Some e => (Ret (Some e, []), w)
    | None =>
        let w1 := set_sent (sent w ++ [request_of uri et]) w in
        match partner w (sent w) (request_of uri et) with
        | inl e => (Ret (Some e, []), w1)
        | inr body =>
            match flipIV (Encrypted.IV et) with
            | None => (Panic, w1)
            | Some iv' => (Ret (None, (AesDecrypt body symKey iv').1), w1)
            end
        end
    end.
Proof.
  unfold requestTaskList, request_of, bind, Do, ret, panic.
  destruct (NewRequest uri); [done|]; simpl.
  destruct (partner w (sent w) _); [done|].
  destruct (flipIV _); [|done].
  by destruct (AesDecrypt _ _ _).
Qed.

(** The ways a call of [sendTaskList] can go. *)
Lemma sendTaskList_inv tasks org w r w' :
  sendTaskList g tasks org w = (r, w') →
  (r = Panic ∧ w' = w ∧ (deref g org = None ∨ tasks = []))
  ∨ (∃ e, r = Ret (Some e, []) ∧ sent w' = sent w)
  ∨ (∃ o task0 rest symKey iv ticket ticketM et w2,
       deref g org = Some o ∧ tasks = task0 :: rest
       ∧ length symKey = 16%nat ∧ length iv = 16%nat
       ∧ Marshal_Ticket ticket = (ticketM, None)
       ∧ encryptTicket (keys w) ticketM (Task.Source task0) symKey iv = (Some et, None)
       ∧ Encrypted.IV et = iv
       ∧ sent w2 = sent w ∧ partner w2 = partner w
       ∧ requestTaskList (Organization.Uri o) et symKey w2 = (r, w')).
Proof.
  unfold sendTaskList.
  destruct (deref g org) as [o|] eqn:Ho;
    [|intros [= <- <-]; left; auto].
  destruct tasks as [|task0 rest]; [intros [= <- <-]; left; auto|].
  unfold bind at 1.
  destruct (ReadFull 16 w) as [[[symKey e1]|] w1] eqn:R1;
    [|by unfold ReadFull in R1; case_decide].
  apply ReadFull_inv in R1 as (Hk1 & Hs1 & Hp1 & _ & Hl1).
  destruct e1 as [e1|]; [intros [= <- <-]; right; left; eauto|].
  unfold bind at 1.
  destruct (ReadFull 16 w1) as [[[iv e2]|] w2] eqn:R2;
    [|by unfold ReadFull in R2; case_decide].
  apply ReadFull_inv in R2 as (Hk2 & Hs2 & Hp2 & _ & Hl2).
  destruct e2 as [e2|];
    [intros [= <- <-]; right; left; exists e2; split; [done|congruence]|].
  unfold bind at 1, createTicket, bind at 1, get, ret.
  destruct (Marshal_Ticket (Ticket.mk _ _ _ [])) as [msg [e3|]];
    [intros [= <- <-]; right; left; exists e3; split; [done|congruence]|].
  destruct (Sign msg _) as [sig [e4|]];
    [intros [= <- <-]; right; left; exists e4; split; [done|congruence]|].
  destruct (Marshal_Ticket (Ticket.mk _ _ _ sig)) as [ticketM [e5|]] eqn:HM;
    [intros [= <- <-]; right; left; exists e5; split; [done|congruence]|].
  unfold bind at 1.
  destruct (encryptTicket_inv (keys w2) ticketM (Task.Source task0) symKey iv)
    as [[e6 He]|(key & Hkey & Hrsa & Haes & He)]; rewrite He.
  - intros [= <- <-]; right; left; exists e6; split; [done|congruence].
  - intros Hreq. right; right.
    eexists o, task0, rest, symKey, iv, _, ticketM, _, w2.
    split_and!; try done; try (by auto); try congruence.
Qed.

Lemma lxor_1_bit0 b : Z.testbit (Z.lxor b 1) 0 = negb (Z.testbit b 0).
Proof. rewrite Z.lxor_spec. simpl. by destruct (Z.testbit b 0). Qed.

Lemma lxor_1_other_bits b j : j ≠ 0 → Z.testbit (Z.lxor b 1) j = Z.testbit b j.
Proof.
  intros Hj. rewrite Z.lxor_spec.
  assert (Z.testbit 1 j = false) as -> by (destruct j as [|p|p]; [done|by destruct p|done]).
  by destruct (Z.testbit b j).
Qed.

(** A byte stays a byte when its lowest bit is flipped. *)
Lemma lxor_1_byte b : 0 ≤ b < 256 → 0 ≤ Z.lxor b 1 < 256.
Proof.
  intros [Hlo Hhi]. split; [by apply Z.lxor_nonneg|].
  apply (Z.log2_lt_cancel _ 256), Z.le_lt_trans with (Z.max (Z.log2 b) (Z.log2 1)).
  - apply Z.log2_lxor; lia.
  - change (Z.log2 1) with 0. change (Z.log2 256) with 8.
    assert (Z.log2 b < 8).
    { destruct (decide (b = 0)) as [->|]; [done|].
      apply Z.log2_lt_pow2; lia. }
    lia.
Qed.

(** With an organization behind the pointer and a task to take the
    source from, [sendTaskList] returns. *)
Lemma sendTaskList_returns tasks org w :
  is_Some (deref g org) → tasks ≠ [] →
  ∃ r w', sendTaskList g tasks org w = (Ret r, w').
Proof.
  intros [o Ho] Hne.
  destruct (sendTaskList g tasks org w) as [r w'] eqn:Hs.
  apply sendTaskList_inv in Hs
    as [(_ & _ & [Hd| ->])|[(e & -> & _)|
        (o' & task0 & rest & symKey & iv & ticket & ticketM & et & w2
           & _ & _ & _ & Hiv & _ & _ & HIV & _ & _ & Hreq)]];
    [congruence|done|eauto|].
  rewrite requestTaskList_unfold in Hreq.
  destruct (NewRequest _); [injection Hreq as <- <-; eauto|].
  simpl in Hreq. destruct (partner _ _ _); [injection Hreq as <- <-; eauto|].
  rewrite HIV in Hreq. destruct iv as [|b iv]; [done|].
  simpl in Hreq. injection Hreq as <- <-; eauto.
Qed.

(** C2. The response is decrypted under the request's IV with one bit
    flipped. Whenever [sendTaskList] returns a decrypted answer, the
    request it sent carried a ticket encrypted under a session key
    [symKey] and an IV [b :: rest], and the answer is the partner's body
    decrypted under the same [symKey], the key the request carried
    wrapped for the recipient, and the IV [Z.lxor b 1 :: rest]: the
    first byte differs from [b] in its lowest bit and in no other bit,
    and all the other bytes are the same. *)
Theorem response_iv_is_request_iv_flipped tasks org w out w' :
  sendTaskList g tasks org w = (Ret (None, out), w') →
  ∃ uri fp encKey ticketM symKey b rest body,
    sent w' = sent w ++
      [request_of uri
         (Encrypted.mk fp encKey (AesEncrypt ticketM symKey (b :: rest)).1 (b :: rest))]
    ∧ (AesEncrypt ticketM symKey (b :: rest)).2 = None
    ∧ partner w (sent w)
        (request_of uri
           (Encrypted.mk fp encKey (AesEncrypt ticketM symKey (b :: rest)).1 (b :: rest)))
      = inr body
    ∧ out = (AesDecrypt body symKey (Z.lxor b 1 :: rest)).1
    ∧ (∃ key, keys w !! fp = Some key ∧ encKey = (RsaEncrypt symKey key).1)
    ∧ Z.testbit (Z.lxor b 1) 0 = negb (Z.testbit b 0)
    ∧ (∀ j, j ≠ 0 → Z.testbit (Z.lxor b 1) j = Z.testbit b j).
Proof.
  intros Hs.
  apply sendTaskList_inv in Hs
    as [(? & _)|[(e & ? & _)|
        (o & task0 & rest0 & symKey & iv & ticket & ticketM & et & w2
           & _ & _ & _ & Hiv & _ & Het & _ & Hs2 & Hp2 & Hreq)]];
    [done|done|].
  destruct (encryptTicket_inv (keys w) ticketM (Task.Source task0) symKey iv)
    as [[e He]|(key & Hkey & _ & Haes & He)]; [congruence|].
  rewrite He in Het. injection Het as <-.
  rewrite requestTaskList_unfold in Hreq.
  destruct (NewRequest _); [done|]. simpl in Hreq.
  rewrite Hs2, Hp2 in Hreq.
  destruct (partner w (sent w) _) as [e|body] eqn:Hb; [done|].
  destruct iv as [|b rest]; [done|]. simpl in Hreq.
  injection Hreq as <- <-.
  exists (Organization.Uri o), (Task.Source task0), (RsaEncrypt symKey key).1,
    ticketM, symKey, b, rest, body.
  split_and!; try done.
  - by exists key.
  - apply lxor_1_bit0.
  - apply lxor_1_other_bits.
Qed.

Lemma ReadFull_enough n w :
  (n ≤ length (entropy w))%nat →
  ReadFull n w = (Ret (take n (entropy w), None), set_entropy (drop n (entropy w)) w).
Proof. intros Hn. unfold ReadFull. by rewrite decide_True. Qed.

Lemma ReadFull_short n w :
  (length (entropy w) < n)%nat →
  ∃ buf e, ReadFull n w = (Ret (buf, Some e), set_entropy [] w).
Proof.
  intros Hn. unfold ReadFull. rewrite decide_False by lia. by eexists _, _.
Qed.

Lemma sendTaskList_steps task0 rest org o w :
  deref g org = Some o → (32 ≤ length (entropy w))%nat →
  sendTaskList g (task0 :: rest) org w
  = match Marshal_Ticket (unsigned_ticket g w (task0 :: rest)) with
    | (_, Some e) => (Ret (Some e, []), set_entropy (drop 32 (entropy w)) w)
    | (msg, None) =>
        match Sign msg (ticketSignKey g) with
        | (_, Some e) => (Ret (Some e, []), set_entropy (drop 32 (entropy w)) w)
        | (sig, None) =>
            match Marshal_Ticket (Ticket.mk (now w + validity) (task0 :: rest)
                                    (ticketSignKeyName g) sig) with
            | (_, Some e) => (Ret (Some e, []), set_entropy (drop 32 (entropy w)) w)
            | (ticketM, None) =>
                match encryptTicket (keys w) ticketM (Task.Source task0)
                        (take 16 (entropy w)) (take 16 (drop 16 (entropy w))) with
                | (_, Some e) => (Ret (Some e, []), set_entropy (drop 32 (entropy w)) w)
                | (None, None) => (Panic, set_entropy (drop 32 (entropy w)) w)
                | (Some et, None) =>
                    requestTaskList (Organization.Uri o) et (take 16 (entropy w))
                      (set_entropy (drop 32 (entropy w)) w)
                end
            end
        end
    end.
Proof.
  intros Ho Hlen. unfold sendTaskList. rewrite Ho.
  unfold bind at 1. rewrite ReadFull_enough by lia.
  unfold bind at 1. rewrite ReadFull_enough by (simpl; rewrite length_drop; lia).
  assert (set_entropy (drop 16 (entropy (set_entropy (drop 16 (entropy w)) w)))
            (set_entropy (drop 16 (entropy w)) w)
          = set_entropy (drop 32 (entropy w)) w) as ->.
  { unfold set_entropy; simpl. by rewrite drop_drop. }
  simpl entropy.
  unfold bind at 1, createTicket, bind at 1, get, ret, unsigned_ticket. simpl.
  destruct (Marshal_Ticket (Ticket.mk _ _ _ [])) as [msg [e|]]; [done|].
  destruct (Sign msg _) as [sig [e|]]; [done|].
  destruct (Marshal_Ticket (Ticket.mk _ _ _ sig)) as [ticketM [e|]]; [done|].
  unfold bind at 1.
  by destruct (encryptTicket _ _ _ _ _) as [[et|] [e|]].
Qed.

Lemma sendTaskList_short task0 rest org o w :
  deref g org = Some o → (length (entropy w) < 32)%nat →
  ∃ e, sendTaskList g (task0 :: rest) org w = (Ret (Some e, []), set_entropy [] w).
Proof.
  intros Ho Hlen. unfold sendTaskList. rewrite Ho. unfold bind at 1.
  destruct (decide (16 ≤ length (entropy w))%nat) as [H16|H16].
  - rewrite ReadFull_enough by done. unfold bind at 1.
    destruct (ReadFull_short 16 (set_entropy (drop 16 (entropy w)) w))
      as (buf & e & ->); [simpl; rewrite length_drop; lia|].
    by exists e.
  - destruct (ReadFull_short 16 w) as (buf & e & ->); [lia|]. by exists e.
Qed.

Lemma createTicket_unfold tasks w :
  createTicket g tasks w
  = match Marshal_Ticket (unsigned_ticket g w tasks) with
    | (_, Some e) => (Ret (unsigned_ticket g w tasks, Some e), w)
    | (msg, None) =>
        (Ret (Ticket.mk (now w + validity) tasks (ticketSignKeyName g)
                (Sign msg (ticketSignKey g)).1,
              (Sign msg (ticketSignKey g)).2), w)
    end.
Proof.
  unfold createTicket, bind, get, ret, unsigned_ticket.
  destruct (Marshal_Ticket _) as [msg [e|]]; [done|].
  by destruct (Sign msg _).
Qed.

(** [encryptTicket] looks at the key store under one name only. *)
Lemma encryptTicket_lookup (ks ks' : gmap string PublicKey)
    (ticket : bytes) (asymKeyId : string) (symKey iv : bytes) :
  ks' !! asymKeyId = ks !! asymKeyId →
  encryptTicket ks' ticket asymKeyId symKey iv
  = encryptTicket ks ticket asymKeyId symKey iv.
Proof. intros Hl. unfold encryptTicket, encryptKey. by rewrite Hl. Qed.

Lemma requestTaskList_keys uri et symKey ks w :
  (requestTaskList uri et symKey (set_keys ks w)).1
  = (requestTaskList uri et symKey w).1
  ∧ sent (requestTaskList uri et symKey (set_keys ks w)).2
    = sent (requestTaskList uri et symKey w).2.
Proof.
  rewrite !requestTaskList_unfold. simpl.
  destruct (NewRequest uri); [done|].
  destruct (partner w (sent w) _); [done|].
  by destruct (flipIV _).
Qed.

(** C7. The key of the first task's source seals the whole sub-batch.
    Take a list with first task [task0], whatever the tasks after it, an
    organization behind the pointer, 32 random bytes at hand, and a
    ticket that is created and serialized. Then [sendTaskList] is
    [encryptTicket] for the fingerprint [Task.Source task0] followed, on
    success, by the request for that envelope. So, when no key is filed
    under the first task's source, the call fails with "Public Key not
    found", whatever keys are filed under the sources of the other tasks;
    when a key is filed under it and both encryption steps and the
    request's construction succeed, the call sends one request, whose
    [KeyFingerprint] is the first task's source and whose [EncryptedKey]
    is the session key wrapped for that key; and a key store that agrees
    with the present one on the first task's source alone gives the same
    result and the same requests. *)
Theorem sendTaskList_key_is_first_source task0 rest org o ticket ticketM w :
  deref g org = Some o →
  (32 ≤ length (entropy w))%nat →
  createTicket g (task0 :: rest) w = (Ret (ticket, None), w) →
  Marshal_Ticket ticket = (ticketM, None) →
  sendTaskList g (task0 :: rest) org w
  = match encryptTicket (keys w) ticketM (Task.Source task0)
            (take 16 (entropy w)) (take 16 (drop 16 (entropy w))) with
    | (_, Some e) => (Ret (Some e, []), set_entropy (drop 32 (entropy w)) w)
    | (None, None) => (Panic, set_entropy (drop 32 (entropy w)) w)
    | (Some et, None) =>
        requestTaskList (Organization.Uri o) et (take 16 (entropy w))
          (set_entropy (drop 32 (entropy w)) w)
    end
  ∧ (keys w !! Task.Source task0 = None →
       sendTaskList g (task0 :: rest) org w
       = (Ret (Some (errors_New "Public Key not found"), []),
          set_entropy (drop 32 (entropy w)) w))
  ∧ (∀ key,
       keys w !! Task.Source task0 = Some key →
       (RsaEncrypt (take 16 (entropy w)) key).2 = None →
       (AesEncrypt ticketM (take 16 (entropy w)) (take 16 (drop 16 (entropy w)))).2
         = None →
       NewRequest (Organization.Uri o) = None →
       sent (sendTaskList g (task0 :: rest) org w).2
       = sent w ++
         [request_of (Organization.Uri o)
            {| Encrypted.KeyFingerprint := Task.Source task0;
               Encrypted.EncryptedKey := (RsaEncrypt (take 16 (entropy w)) key).1;
               Encrypted.Encrypted :=
                 (AesEncrypt ticketM (take 16 (entropy w))
                    (take 16 (drop 16 (entropy w)))).1;
               Encrypted.IV := take 16 (drop 16 (entropy w)) |}]
       ∧ req_query
           (request_of (Organization.Uri o)
              {| Encrypted.KeyFingerprint := Task.Source task0;
                 Encrypted.EncryptedKey := (RsaEncrypt (take 16 (entropy w)) key).1;
                 Encrypted.Encrypted :=
                   (AesEncrypt ticketM (take 16 (entropy w))
                      (take 16 (drop 16 (entropy w)))).1;
                 Encrypted.IV := take 16 (drop 16 (entropy w)) |}) !! 0%nat
         = Some ("KeyFingerprint", Task.Source task0))
  ∧ (∀ ks,
       ks !! Task.Source task0 = keys w !! Task.Source task0 →
       (sendTaskList g (task0 :: rest) org (set_keys ks w)).1
       = (sendTaskList g (task0 :: rest) org w).1
       ∧ sent (sendTaskList g (task0 :: rest) org (set_keys ks w)).2
         = sent (sendTaskList g (task0 :: rest) org w).2).
Proof.
  intros Ho H32 Hct HM.
  assert (∀ w0, entropy w0 = entropy w → now w0 = now w →
            sendTaskList g (task0 :: rest) org w0
            = match encryptTicket (keys w0) ticketM (Task.Source task0)
                      (take 16 (entropy w)) (take 16 (drop 16 (entropy w))) with
              | (_, Some e) => (Ret (Some e, []), set_entropy (drop 32 (entropy w)) w0)
              | (None, None) => (Panic, set_entropy (drop 32 (entropy w)) w0)
              | (Some et, None) =>
                  requestTaskList (Organization.Uri o) et (take 16 (entropy w))
                    (set_entropy (drop 32 (entropy w)) w0)
              end) as Hstep.
  { intros w0 He Hn. rewrite (sendTaskList_steps _ _ _ o) by (done || by rewrite He).
    rewrite createTicket_unfold in Hct. unfold unsigned_ticket in *.
    rewrite He, Hn.
    destruct (Marshal_Ticket (Ticket.mk _ _ _ [])) as [msg [e|]]; [done|].
    destruct (Sign msg (ticketSignKey g)) as [sig [e|]]; [done|].
    simpl in Hct. injection Hct as <-. by rewrite HM. }
  split_and!.
  - by apply Hstep.
  - intros Hkey. rewrite Hstep by done.
    unfold encryptTicket, encryptKey. by rewrite Hkey.
  - intros key Hkey Hrsa Haes Hnew. split; [|done].
    rewrite Hstep by done. unfold encryptTicket, encryptKey. rewrite Hkey.
    destruct (RsaEncrypt _ key) as [encKey [e|]]; [done|].
    destruct (AesEncrypt ticketM _ _) as [encrypted [e|]]; [done|].
    rewrite requestTaskList_unfold, Hnew. simpl.
    destruct (partner w (sent w) _); [done|].
    destruct (take 16 (drop 16 (entropy w))) as [|b iv] eqn:Hiv; [|done].
    apply (f_equal length) in Hiv. rewrite length_take, length_drop in Hiv.
    change (length (@nil Z)) with 0%nat in Hiv. lia.
  - intros ks Hks. rewrite (Hstep (set_keys ks w)), (Hstep w) by done.
    simpl keys. rewrite (encryptTicket_lookup (keys w) ks) by done.
    destruct (encryptTicket (keys w) _ _ _ _) as [[et|] [e|]]; try done.
    apply (requestTaskList_keys _ _ _ ks (set_entropy (drop 32 (entropy w)) w)).
Qed.

(** C6, as the code has it. [encryptTicket] returns "Public Key not
    found" and no envelope when the fingerprint is not in the key store.
    When it is, the outcome is decided by the two encryption steps: the
    error of the first one that fails and no envelope, or, when both
    succeed, no error and the envelope holding the given fingerprint,
    the session key wrapped with the recipient's key, the ticket
    encrypted under session key and IV, and the given IV. *)
Theorem encryptTicket_outcomes (ks : gmap string PublicKey)
    (ticket : bytes) (asymKeyId : string) (symKey iv : bytes) :
  (ks !! asymKeyId = None →
     encryptTicket ks ticket asymKeyId symKey iv
     = (None, Some (errors_New "Public Key not found")))
  ∧ (∀ key, ks !! asymKeyId = Some key →
       encryptTicket ks ticket asymKeyId symKey iv
       = match (RsaEncrypt symKey key).2, (AesEncrypt ticket symKey iv).2 with
         | Some e, _ => (None, Some e)
         | None, Some e => (None, Some e)
         | None, None =>
             (Some {| Encrypted.KeyFingerprint := asymKeyId;
                      Encrypted.EncryptedKey := (RsaEncrypt symKey key).1;
                      Encrypted.Encrypted := (AesEncrypt ticket symKey iv).1;
                      Encrypted.IV := iv |}, None)
         end).
Proof.
  unfold encryptTicket, encryptKey. split.
  - by intros ->.
  - intros key ->.
    destruct (RsaEncrypt symKey key) as [encKey [e|]]; [done|].
    by destruct (AesEncrypt ticket symKey iv) as [encrypted [e|]].
Qed.

End Sending.

(** ** [authenticate] *)

Section Authentication.
Context `{Tasking} `{GoLib} (g : Globals).

Lemma authenticate_cases username password :
  (∃ user, authenticate g username password = (Some user, None))
  ∨ authenticate g username password
    = (None, Some (errors_New "Authentication failed")).
Proof.
  unfold authenticate. destruct (users g !! username) as [user|]; [|by right].
  destruct (CompareHashAndPassword _ _); [by right|left; eauto].
Qed.

(** C3. [authenticate] returns a user, and no error, exactly when the
    user map has that user under the given name and the password
    matches the user's stored hash. Otherwise, for a name that is not in
    the map as for a password that does not match, it returns no user
    and the error "Authentication failed": any two failing calls return
    the same value. *)
Theorem authenticate_spec username password :
  (∀ user,
     authenticate g username password = (Some user, None)
     ↔ users g !! username = Some user
       ∧ CompareHashAndPassword (User.PasswordHash user) password = None)
  ∧ (users g !! username = None →
       authenticate g username password
       = (None, Some (errors_New "Authentication failed")))
  ∧ (∀ user e,
       users g !! username = Some user →
       CompareHashAndPassword (User.PasswordHash user) password = Some e →
       authenticate g username password
       = (None, Some (errors_New "Authentication failed")))
  ∧ (∀ username' password',
       (authenticate g username password).1 = None →
       (authenticate g username' password').1 = None →
       authenticate g username password = authenticate g username' password').
Proof.
  split_and!.
  - intros user. unfold authenticate. split.
    + destruct (users g !! username) as [user'|]; [|done].
      destruct (CompareHashAndPassword _ _) eqn:Hc; [done|].
      by intros [= <-].
    + by intros [-> ->].
  - unfold authenticate. by intros ->.
  - unfold authenticate. by intros user e -> ->.
  - intros username' password' H1 H2.
    destruct (authenticate_cases username password) as [[u Hu]|Hu];
      rewrite Hu in H1 |- *; [done|].
    destruct (authenticate_cases username' password') as [[u' Hu']|Hu'];
      rewrite Hu' in H2 |- *; done.
Qed.

End Authentication.

(** ** [handleTask] *)

Section Handling.
Context `{Tasking} `{GoLib} (g : Globals).

Implicit Types (w : World) (tasks tasklist : list Task.t) (org : OrgPtr).
Implicit Types (entries : list (OrgPtr * list Task.t)).

Lemma handleTask_refused tasksStr username password w :
  (authenticate g username password).2 ≠ None →
  handleTask g tasksStr username password w
  = (Ret (Some (errors_New "Authentication failed"), None), w).
Proof.
  intros Hf. unfold handleTask.
  destruct (authenticate_cases g username password) as [[u Hu]|Hu];
    rewrite Hu in Hf |- *; done.
Qed.

(** C4. A batch whose credentials fail is refused as a whole. When
    [authenticate] returns an error, [handleTask] returns that error,
    "Authentication failed", with a nil error list, whatever the batch
    text, and leaves the world as it found it: no entropy is drawn and
    no request is sent. *)
Theorem handleTask_auth_failure tasksStr username password w :
  (authenticate g username password).2 ≠ None →
  (authenticate g username password).2 = Some (errors_New "Authentication failed")
  ∧ handleTask g tasksStr username password w
    = (Ret (Some (errors_New "Authentication failed"), None), w)
  ∧ (∀ tasksStr',
       handleTask g tasksStr' username password w
       = handleTask g tasksStr username password w).
Proof.
  intros Hf. unfold handleTask.
  destruct (authenticate g username password) as [u [e|]] eqn:Ha; [|done].
  destruct (authenticate_cases g username password) as [[u' Hu]|Hu];
    rewrite Hu in Ha.
  - discriminate.
  - injection Ha as <- <-. by split_and!.
Qed.

Lemma report_all_map (mk : Task.t → TaskError.t) tskerrors tasklist :
  report_all mk tskerrors tasklist = tskerrors ++ (mk <$> tasklist).
Proof.
  unfold report_all. revert tskerrors.
  induction tasklist as [|task tasklist IH]; intros tskerrors; simpl.
  - by rewrite app_nil_r.
  - by rewrite IH, <- app_assoc.
Qed.

(** One iteration of the second loop appends the group's block. *)
Lemma dispatch_cons org tasklist rest tskerrors w r w1 :
  sendTaskList g tasklist org w = (Ret r, w1) →
  dispatch g ((org, tasklist) :: rest) tskerrors w
  = dispatch g rest (tskerrors ++ block_of r tasklist) w1.
Proof.
  intros Hs. simpl. unfold bind at 1. rewrite Hs.
  destruct r as [[e|] tskOrgErrors]; simpl.
  - by rewrite report_all_map.
  - destruct (Unmarshal_TaskErrors tskOrgErrors); [|done].
    by rewrite report_all_map.
Qed.

(** The errors gathered before a run of the loop stay in front. *)
Lemma dispatch_acc entries tskerrors w :
  dispatch g entries tskerrors w
  = match dispatch g entries [] w with
    | (Ret l, w') => (Ret (tskerrors ++ l), w')
    | (Panic, w') => (Panic, w')
    end.
Proof.
  revert tskerrors w. induction entries as [|[org tasklist] rest IH];
    intros tskerrors w.
  - simpl. unfold ret. by rewrite app_nil_r.
  - destruct (sendTaskList g tasklist org w) as [[r|] w1] eqn:Hs.
    + rewrite !(dispatch_cons _ _ _ _ _ _ _ Hs).
      rewrite (IH (tskerrors ++ _)), (IH ([] ++ _)).
      destruct (dispatch g rest [] w1) as [[l|] w']; [|done].
      by rewrite <- app_assoc.
    + simpl. unfold bind. by rewrite Hs.
Qed.

Lemma dispatch_Dispatched entries tskerrors w :
  Forall (sendable g) entries →
  ∃ blocks w',
    Dispatched g w entries blocks w'
    ∧ dispatch g entries tskerrors w = (Ret (tskerrors ++ concat blocks), w').
Proof.
  intros Hall. revert tskerrors w.
  induction Hall as [|[org tasklist] rest [Hd Hne] _ IH]; intros tskerrors w.
  - exists [], w. split; [constructor|]. simpl. by rewrite app_nil_r.
  - destruct (sendTaskList_returns g tasklist org w Hd Hne) as (r & w1 & Hs).
    destruct (IH (tskerrors ++ block_of r tasklist) w1) as (blocks & w' & HD & Hr).
    exists (block_of r tasklist :: blocks), w'. split.
    + by econstructor.
    + rewrite (dispatch_cons _ _ _ _ _ _ _ Hs), Hr. simpl. by rewrite <- app_assoc.
Qed.

(** Every group the first loop builds can be sent. *)
Lemma route_tasks_sendable tasks :
  routes_valid g → Forall (sendable g) (map_to_list (route_tasks g [] tasks).2).
Proof.
  intros Hv. apply Forall_forall. intros [org tasklist] Hin.
  apply elem_of_map_to_list, route_tasks_group in Hin as [Heq Hne].
  split; [|done]. simpl.
  destruct tasklist as [|task tasklist]; [done|].
  assert (task ∈ filter (routed_to g org) tasks) as Hr by (rewrite <- Heq; left).
  apply list_elem_of_filter in Hr as [Hr _].
  by apply (Hv (Task.Source task)).
Qed.

Lemma range_sendable tasks w :
  mapiter_ok w → routes_valid g →
  Forall (sendable g) (mapiter w _ (map_to_list (route_tasks g [] tasks).2)).
Proof.
  intros Hm Hv. rewrite (Hm _ _). by apply route_tasks_sendable.
Qed.

Lemma handleTask_unfold tasksStr username password tasks w :
  (authenticate g username password).2 = None →
  Unmarshal_Tasks tasksStr = inr tasks →
  handleTask g tasksStr username password w
  = match dispatch g (mapiter w _ (map_to_list (route_tasks g [] tasks).2))
            (route_tasks g [] tasks).1 w with
    | (Ret tskerrors, w') => (Ret (None, Some tskerrors), w')
    | (Panic, w') => (Panic, w')
    end.
Proof.
  intros Ha Hu. unfold handleTask.
  destruct (authenticate g username password) as [u [e|]]; [done|].
  rewrite Hu. destruct (route_tasks g [] tasks) as [errs groups]; simpl.
  unfold bind at 1, range_map. unfold bind at 1.
  by destruct (dispatch g _ errs w) as [[l|] w'].
Qed.

Lemma handleTask_dispatched tasksStr username password tasks w :
  mapiter_ok w → routes_valid g →
  (authenticate g username password).2 = None →
  Unmarshal_Tasks tasksStr = inr tasks →
  ∃ blocks w',
    Dispatched g w (mapiter w _ (map_to_list (route_tasks g [] tasks).2)) blocks w'
    ∧ handleTask g tasksStr username password w
      = (Ret (None, Some ((NoRouteError <$> filter (unrouted g) tasks)
                            ++ concat blocks)), w').
Proof.
  intros Hm Hv Ha Hu.
  destruct (dispatch_Dispatched _ (route_tasks g [] tasks).1 w
              (range_sendable tasks w Hm Hv)) as (blocks & w' & HD & Hr).
  exists blocks, w'. split; [done|].
  rewrite (handleTask_unfold _ _ _ tasks) by done. rewrite Hr.
  by rewrite route_tasks_errors.
Qed.


(** C8, as the code has it. For an authenticated, well-formed batch
    the groups are sent one after the other, each from the world the
    previous one left, in the order in which the [range] over the group
    map visits them: every group once, in an order the language leaves
    open, which need not be the order in which the groups were formed.
    The returned list starts with the "No route for source!" records of
    the unrouted tasks in batch order; then comes one block per group,
    in the order the groups were sent. Each group holds its tasks in
    batch order, and so does a block reporting a failed send or an
    unreadable answer; a block decoded from the partner's answer is
    kept as the partner wrote it. *)
Theorem handleTask_error_order tasksStr username password tasks w :
  mapiter_ok w → routes_valid g →
  (authenticate g username password).2 = None →
  Unmarshal_Tasks tasksStr = inr tasks →
  mapiter w _ (map_to_list (route_tasks g [] tasks).2)
    ≡ₚ map_to_list (route_tasks g [] tasks).2
  ∧ (∀ org tasklist,
       (org, tasklist) ∈ mapiter w _ (map_to_list (route_tasks g [] tasks).2) →
       tasklist = filter (routed_to g org) tasks)
  ∧ ∃ blocks w',
      Dispatched g w (mapiter w _ (map_to_list (route_tasks g [] tasks).2)) blocks w'
      ∧ handleTask g tasksStr username password w
        = (Ret (None, Some ((NoRouteError <$> filter (unrouted g) tasks)
                              ++ concat blocks)), w').
Proof.
  intros Hm Hv Ha Hu. split_and!.
  - apply Hm.
  - intros org tasklist Hin. rewrite (Hm _ _) in Hin.
    by apply elem_of_map_to_list, route_tasks_group in Hin as [? _].
  - by apply handleTask_dispatched.
Qed.

(** C9, as the code has it. When the send of a group succeeds and the
    decrypted answer does not decode, the loop appends one "Error while
    parsing result!" record for each task of the group, in the group's
    order, and goes on with the remaining groups exactly as it would
    have from the world the send left: their errors follow, and nothing
    of the batch is given up. *)
Theorem dispatch_decode_failure org tasklist rest tskerrors w tskOrgErrors e w1 :
  sendTaskList g tasklist org w = (Ret (None, tskOrgErrors), w1) →
  Unmarshal_TaskErrors tskOrgErrors = inl e →
  dispatch g ((org, tasklist) :: rest) tskerrors w
  = match dispatch g rest [] w1 with
    | (Ret l, w') => (Ret (tskerrors ++ (ParseError e <$> tasklist) ++ l), w')
    | (Panic, w') => (Panic, w')
    end.
Proof.
  intros Hs Hu. rewrite (dispatch_cons _ _ _ _ _ _ _ Hs), dispatch_acc.
  simpl. rewrite Hu.
  destruct (dispatch g rest [] w1) as [[l|] w']; [|done].
  by rewrite <- app_assoc.
Qed.

End Handling.

(** ** The sample proxy *)

Section Proxy.
Context `{Tasking} `{GoLib} (g : Globals).

(** C5. A successful upload triggers one automatic task. When the
    request body is read, the credentials are accepted, storage answers,
    its body is read and parses with [ResponseCode] 1, and the
    configured auto-task map is not empty, [RoundTrip] calls
    [sendTaskList] once, for the gateway's own organization, with a list
    of exactly one task: [PrimaryURI] the configured storage uri followed
    by the returned [Sha256], [Filename] the form field [name], [Tasks]
    the configured auto-task map, [Source] the form field [source],
    [Download] true. Whatever that call returns is dropped: the caller
    gets storage's response, with the body that was read, and no
    error. *)
Theorem RoundTrip_auto_task request w reqbuf user response buf own :
  Body request = inr reqbuf →
  authenticate g (FormValue request "username") (FormValue request "password")
    = (Some user, None) →
  storage w {| Body := inr reqbuf; Form := Form request;
               RawQuery := <["user_id" := [pretty (User.Id user)]]> (RawQuery request) |}
    = inr response →
  RespBody response = inr buf →
  ResponseCode (Unmarshal_storageResponse buf).1 = 1 →
  AutoTasks (conf g) ≠ ∅ →
  ownOrganization g = Some own →
  is_Some (deref g own) →
  ∃ r w',
    sendTaskList g
      [ {| Task.PrimaryURI :=
             StorageURI (conf g) +:+ Sha256 (Result (Unmarshal_storageResponse buf).1);
           Task.SecondaryURI := "";
           Task.Filename := FormValue request "name";
           Task.Tasks := AutoTasks (conf g);
           Task.Tags := [];
           Task.Attempts := 0;
           Task.Source := FormValue request "source";
           Task.Download := true |} ] own w = (Ret r, w')
    ∧ RoundTrip g request w = (Ret (Some response, None), w').
Proof.
  intros Hb Ha Hst Hrb Hrc Hat Hown Hd.
  destruct (sendTaskList_returns g
    [autoTask g (FormValue request "name") (FormValue request "source")
       (Unmarshal_storageResponse buf).1] own w Hd ltac:(done)) as (r & w' & Hs).
  exists r, w'. split; [exact Hs|].
  unfold RoundTrip. rewrite Hb, Ha. unfold bind at 1, get. rewrite Hst, Hrb.
  destruct (Unmarshal_storageResponse buf) as [resp err]; simpl in *.
  rewrite decide_True by done.
  rewrite decide_True by (by rewrite map_size_non_empty_iff).
  rewrite Hown. unfold bind. rewrite Hs. unfold ret.
  destruct response as [code body]; simpl in *. by rewrite Hrb.
Qed.


End Proxy.

(** ** Start-up leaves valid pointers *)

Section StartupProperties.
Context `{Tasking}.

Lemma insert_sources_bound (n num : nat) (srcs : list string)
    (router : gmap string OrgPtr) :
  (num < n)%nat →
  (∀ src org, router !! src = Some org → (org < n)%nat) →
  ∀ src org,
    foldl (λ r src, <[src := num]> r) router srcs !! src = Some org → (org < n)%nat.
Proof.
  intros Hnum. revert router.
  induction srcs as [|s srcs IH]; intros router Hr src org; simpl; [by apply Hr|].
  apply IH. intros src' org'. rewrite lookup_insert.
  case_decide; [by intros [= <-]|by apply Hr].
Qed.

Lemma initSourceRouting_bound (c : config) :
  (∀ src org, (initSourceRouting c).1 !! src = Some org →
              (org < length (Organizations c))%nat)
  ∧ (∀ own, (initSourceRouting c).2 = Some own →
            (own < length (Organizations c))%nat).
Proof.
  unfold initSourceRouting.
  assert (Forall (λ p, (p.1 < length (Organizations c))%nat)
            (imap pair (Organizations c))) as Hall.
  { apply Forall_lookup. intros i [num org]. rewrite list_lookup_imap.
    destruct (Organizations c !! i) as [o|] eqn:Ho; [|done].
    intros [= <- <-]. simpl. by eapply lookup_lt_Some. }
  revert Hall. generalize (imap pair (Organizations c)) as pairs.
  generalize (length (Organizations c)) as n. intros n pairs.
  assert (∀ st : gmap string OrgPtr * option OrgPtr,
            (∀ src org, st.1 !! src = Some org → (org < n)%nat) →
            (∀ own, st.2 = Some own → (own < n)%nat) →
            Forall (λ p : nat * Organization.t, (p.1 < n)%nat) pairs →
            let st' :=
              foldl (λ '(router, own) '(num, org),
                       (foldl (λ r src, <[src := num]> r) router
                          (Organization.Sources org),
                        if decide (Organization.Name org = OwnOrganization c)
                        then Some num else own)) st pairs in
            (∀ src org, st'.1 !! src = Some org → (org < n)%nat)
            ∧ (∀ own, st'.2 = Some own → (own < n)%nat)) as Hgen.
  { induction pairs as [|[num org] pairs IH]; intros [router own] Hr Ho Hall; simpl.
    - done.
    - apply Forall_cons in Hall as [Hnum Hall]. simpl in Hnum.
      apply IH; simpl; [|intros own'; case_decide; [by intros [= <-]|apply Ho]|done].
      by apply insert_sources_bound. }
  intros Hall. apply (Hgen (∅, None)); simpl; [|done|done].
  intros src org. by rewrite lookup_empty.
Qed.

(** The globals [Start] builds address organizations only. *)
Lemma Start_valid (c : config) (signKey : PrivateKey) (signKeyName : string)
    (g : Globals) :
  Start c signKey signKeyName = Some g → routes_valid g ∧ own_valid g.
Proof.
  unfold Start.
  destruct (initSourceRouting_bound c) as [Hr Ho].
  destruct (initSourceRouting c) as [router [own|]]; [|done].
  intros [= <-]. split.
  - intros src org Hl. unfold deref; simpl in *.
    apply lookup_lt_is_Some. by eapply Hr.
  - exists own. split; [done|]. unfold deref; simpl.
    apply lookup_lt_is_Some. by apply Ho.
Qed.

End StartupProperties.

(** ** No call of [sendTaskList] on an empty list *)

Section Safety.
Context `{Tasking} `{GoLib} (g : Globals).


End Safety.

(** ** The statements at work on the small deployment *)

Section Examples.
Import Demo.
#[local] Existing Instance tasking.
#[local] Existing Instance golib.

Lemma world_mapiter_ok : mapiter_ok world.
Proof. intros A l. reflexivity. Qed.

Lemma globals_started : Start cfg 7 "sign" = Some globals.
Proof. vm_compute. reflexivity. Qed.

Lemma globals_routes_valid : routes_valid globals.
Proof. exact (proj1 (Start_valid _ _ _ _ globals_started)). Qed.


Example route_two_organizations :
  (route_tasks globals [] (batch "fxlb")).1 = [NoRouteError (task_from "x")]
  ∧ (route_tasks globals [] (batch "fxlb")).2 !! 0%nat
    = Some [task_from "f"; task_from "b"]
  ∧ (route_tasks globals [] (batch "fxlb")).2 !! 1%nat = Some [task_from "l"].
Proof. vm_compute. done. Qed.

Lemma response_iv_witness :
  ∃ uri fp encKey ticketM symKey b rest body,
    sent (sendTaskList globals (batch "f") 0%nat world).2 = sent world ++
      [request_of uri
         (Encrypted.mk fp encKey (AesEncrypt ticketM symKey (b :: rest)).1 (b :: rest))]
    ∧ (AesEncrypt ticketM symKey (b :: rest)).2 = None
    ∧ partner world (sent world)
        (request_of uri
           (Encrypted.mk fp encKey (AesEncrypt ticketM symKey (b :: rest)).1 (b :: rest)))
      = inr body
    ∧ [] = (AesDecrypt body symKey (Z.lxor b 1 :: rest)).1
    ∧ (∃ key, keys world !! fp = Some key ∧ encKey = (RsaEncrypt symKey key).1)
    ∧ Z.testbit (Z.lxor b 1) 0 = negb (Z.testbit b 0)
    ∧ (∀ j, j ≠ 0 → Z.testbit (Z.lxor b 1) j = Z.testbit b j).
Proof.
  apply (response_iv_is_request_iv_flipped globals (batch "f") 0%nat world).
  vm_compute. reflexivity.
Defined.

Lemma handleTask_auth_failure_witness :
  (authenticate globals "test" "guess").2 = Some (errors_New "Authentication failed")
  ∧ handleTask globals "fl" "test" "guess" world
    = (Ret (Some (errors_New "Authentication failed"), None), world)
  ∧ (∀ tasksStr',
       handleTask globals tasksStr' "test" "guess" world
       = handleTask globals "fl" "test" "guess" world).
Proof.
  apply (handleTask_auth_failure globals "fl" "test" "guess" world).
  vm_compute. discriminate.
Defined.

Lemma RoundTrip_auto_task_witness :
  ∃ r w',
    sendTaskList globals
      [ {| Task.PrimaryURI :=
             StorageURI (conf globals)
             +:+ Sha256 (Result (Unmarshal_storageResponse [1]).1);
           Task.SecondaryURI := "";
           Task.Filename := FormValue upload "name";
           Task.Tasks := AutoTasks (conf globals);
           Task.Tags := [];
           Task.Attempts := 0;
           Task.Source := FormValue upload "source";
           Task.Download := true |} ] 0%nat world = (Ret r, w')
    ∧ RoundTrip globals upload world
      = (Ret (Some {| StatusCode := 200; RespBody := inr [1] |}, None), w').
Proof.
  apply (RoundTrip_auto_task globals upload world
           (bytes_of "name=sample.exe&source=f&username=test&password=secret")
           (User.mk "test" "bcrypt:secret" 0)).
  - reflexivity.
  - vm_compute. reflexivity.
  - reflexivity.
  - reflexivity.
  - reflexivity.
  - vm_compute. discriminate.
  - vm_compute. reflexivity.
  - exists (Organization.mk "Org1" "http://localhost:8080/task/" ["f"; "b"]).
    vm_compute. reflexivity.
Defined.

Example upload_task_made :
  autoTask globals (FormValue upload "name") (FormValue upload "source")
    (Unmarshal_storageResponse [1]).1 = upload_task.
Proof. vm_compute. reflexivity. Qed.

Lemma handleTask_error_order_witness :
  mapiter world _ (map_to_list (route_tasks globals [] (batch "fl")).2)
    ≡ₚ map_to_list (route_tasks globals [] (batch "fl")).2
  ∧ (∀ org tasklist,
       (org, tasklist) ∈ mapiter world _ (map_to_list (route_tasks globals [] (batch "fl")).2) →
       tasklist = filter (routed_to globals org) (batch "fl"))
  ∧ ∃ blocks w',
      Dispatched globals world
        (mapiter world _ (map_to_list (route_tasks globals [] (batch "fl")).2)) blocks w'
      ∧ handleTask globals "fl" "test" "secret" world
        = (Ret (None, Some ((NoRouteError <$> filter (unrouted globals) (batch "fl"))
                              ++ concat blocks)), w').
Proof.
  apply (handleTask_error_order globals "fl" "test" "secret" (batch "fl") world).
  - intros A l. reflexivity.
  - exact globals_routes_valid.
  - vm_compute. reflexivity.
  - vm_compute. reflexivity.
Defined.

Lemma dispatch_decode_failure_witness :
  dispatch globals [(0%nat, batch "fb")] [] world
  = match dispatch globals [] [] (sendTaskList globals (batch "fb") 0%nat world).2 with
    | (Ret l, w') => (Ret ([] ++ (ParseError no_json <$> batch "fb") ++ l), w')
    | (Panic, w') => (Panic, w')
    end.
Proof.
  apply (dispatch_decode_failure globals 0%nat (batch "fb") [] [] world []).
  - vm_compute. reflexivity.
  - reflexivity.
Defined.


(** The ticket made for a list of two tasks of different sources, "f"
    and "l", and its serialization. *)
Lemma sendTaskList_key_is_first_source_witness :
  sendTaskList globals (task_from "f" :: batch "l") 0%nat world
  = match encryptTicket (keys world)
            (Marshal_Ticket
               (Ticket.mk (now world + validity) (task_from "f" :: batch "l") "sign"
                  (Sign (Marshal_Ticket
                           (unsigned_ticket globals world (task_from "f" :: batch "l"))).1
                     (ticketSignKey globals)).1)).1
            (Task.Source (task_from "f"))
            (take 16 (entropy world)) (take 16 (drop 16 (entropy world))) with
    | (_, Some e) => (Ret (Some e, []), set_entropy (drop 32 (entropy world)) world)
    | (None, None) => (Panic, set_entropy (drop 32 (entropy world)) world)
    | (Some et, None) =>
        requestTaskList "http://localhost:8080/task/" et (take 16 (entropy world))
          (set_entropy (drop 32 (entropy world)) world)
    end
  ∧ req_query <$> sent (sendTaskList globals (task_from "f" :: batch "l") 0%nat world).2
    = [[("KeyFingerprint", "f");
        ("EncryptedKey",
         EncodeToString (RsaEncrypt (take 16 (entropy world)) 256).1);
        ("IV", EncodeToString (take 16 (drop 16 (entropy world))));
        ("Encrypted",
         EncodeToString
           (AesEncrypt
              (Marshal_Ticket
                 (Ticket.mk (now world + validity) (task_from "f" :: batch "l") "sign"
                    (Sign (Marshal_Ticket
                             (unsigned_ticket globals world
                                (task_from "f" :: batch "l"))).1
                       (ticketSignKey globals)).1)).1
              (take 16 (entropy world)) (take 16 (drop 16 (entropy world)))).1)]].
Proof.
  split.
  - refine (proj1 (sendTaskList_key_is_first_source globals (task_from "f") (batch "l")
                     0%nat (Organization.mk "Org1" "http://localhost:8080/task/" ["f"; "b"])
                     (Ticket.mk (now world + validity) (task_from "f" :: batch "l") "sign"
                        (Sign (Marshal_Ticket
                                 (unsigned_ticket globals world
                                    (task_from "f" :: batch "l"))).1
                           (ticketSignKey globals)).1)
                     _ world _ _ _ _)).
    + vm_compute. reflexivity.
    + vm_compute. lia.
    + vm_compute. reflexivity.
    + vm_compute. reflexivity.
  - vm_compute. reflexivity.
Defined.

(** The same list where only "l" has a key on file: that key is not used. *)
Example mixed_list_needs_first_key :
  keys DemoEndpoints.unkeyed !! "l" = Some 256
  ∧ (sendTaskList globals (task_from "f" :: batch "l") 0%nat DemoEndpoints.unkeyed).1
    = Ret (Some (errors_New "Public Key not found"), []).
Proof. vm_compute. done. Qed.

(** C6, as stated, fails: the fingerprint "b" is in the key store, yet
    [encryptTicket] returns an error and no envelope, because wrapping
    the 16-byte session key fails for that key. *)
Lemma encryptTicket_error_with_key_present :
  keys world !! "b" = Some 64
  ∧ encryptTicket (keys world) (bytes_of "ticket") "b" session_key session_iv
    = (None, Some (errors_New "crypto/rsa: message too long for RSA public key size")).
Proof. vm_compute. done. Qed.

(** C8, as stated, fails: the group of Org1 (pointer 0) is formed
    before the group of Org2 (pointer 1), the range visits every group
    once, and the first request goes to Org2; the errors come back in
    that order too. *)
Lemma dispatch_order_is_not_formation_order :
  mapiter_ok world
  ∧ formation_order globals (batch "fl") = [0; 1]%nat
  ∧ Organization.Uri <$> Organizations (conf globals)
    = ["http://localhost:8080/task/"; "http://localhost:8081/task/"]
  ∧ req_uri <$> sent (handleTask globals "fl" "test" "secret" world).2
    = ["http://localhost:8081/task/"; "http://localhost:8080/task/"]
  ∧ (handleTask globals "fl" "test" "secret" world).1
    = Ret (None, Some [ParseError no_json (task_from "l");
                       ParseError no_json (task_from "f")]).
Proof.
  split; [exact world_mapiter_ok|]. vm_compute. done.
Qed.

(** C9, as stated, fails: one group of two tasks, one request sent, an
    answer that does not decode, and two error records, one for each
    task. *)
Lemma decode_failure_reports_every_task :
  (route_tasks globals [] (batch "fb")).2 = {[0%nat := batch "fb"]}
  ∧ length (sent (handleTask globals "fb" "test" "secret" world).2) = 1%nat
  ∧ (handleTask globals "fb" "test" "secret" world).1
    = Ret (None, Some [ParseError no_json (task_from "f");
                       ParseError no_json (task_from "b")]).
Proof. vm_compute. done. Qed.

End Examples.

(** * Further properties *)

(** ** One dispatch: randomness, ticket, request *)

Section SendingMore.
Context `{Tasking} `{GoLib} (g : Globals).

Implicit Types (w : World) (tasks : list Task.t) (org : OrgPtr).

Lemma requestTaskList_framed uri et symKey w0 w r w' :
  keys w = keys w0 → now w = now w0 → partner w = partner w0 →
  storage w = storage w0 → mapiter w = mapiter w0 →
  entropy w `suffix_of` entropy w0 → sent w = sent w0 →
  requestTaskList uri et symKey w = (r, w') → framed (Some uri) w0 w'.
Proof.
  intros Hk Hn Hp Hs Hm He Hsent. rewrite requestTaskList_unfold.
  destruct (NewRequest uri).
  { intros [= <- <-]. unfold framed. split_and!; try done. by left. }
  simpl.
  assert (framed (Some uri) w0 (set_sent (sent w ++ [request_of uri et]) w)) as Hf.
  { unfold framed; simpl. split_and!; try done.
    right. exists (request_of uri et). by rewrite Hsent. }
  destruct (partner w (sent w) _); [by intros [= <- <-]|].
  destruct (flipIV _); by intros [= <- <-].
Qed.

Lemma sendTaskList_framed tasks org w r w' :
  sendTaskList g tasks org w = (r, w') →
  framed (Organization.Uri <$> deref g org) w w'.
Proof.
  assert (framed (Organization.Uri <$> deref g org) w w) as Hrefl.
  { unfold framed. split_and!; try done. by left. }
  destruct (deref g org) as [o|] eqn:Ho;
    [|unfold sendTaskList; rewrite Ho; by intros [= <- <-]].
  destruct tasks as [|task0 rest];
    [unfold sendTaskList; rewrite Ho; by intros [= <- <-]|].
  assert (∀ ent, ent `suffix_of` entropy w →
            framed (Some (Organization.Uri o)) w (set_entropy ent w)) as Hent.
  { intros ent Hsuf. unfold framed; simpl. split_and!; try done. by left. }
  destruct (decide (32 ≤ length (entropy w))%nat) as [H32|H32].
  - rewrite (sendTaskList_steps g _ _ _ o) by done.
    pose proof (Hent _ (suffix_drop (entropy w) 32)) as Hf.
    destruct (Marshal_Ticket _) as [msg [e|]]; [by intros [= <- <-]|].
    destruct (Sign msg _) as [sig [e|]]; [by intros [= <- <-]|].
    destruct (Marshal_Ticket _) as [ticketM [e|]]; [by intros [= <- <-]|].
    destruct (encryptTicket _ _ _ _ _) as [[et|] [e|]]; try by intros [= <- <-].
    apply requestTaskList_framed; try done. simpl. apply suffix_drop.
  - destruct (sendTaskList_short g task0 rest org o w Ho) as [e ->]; [lia|].
    intros [= <- <-]. apply Hent. apply suffix_nil.
Qed.

Lemma lxor_1_twice b : Z.lxor (Z.lxor b 1) 1 = b.
Proof. by rewrite Z.lxor_assoc, Z.lxor_nilpotent, Z.lxor_0_r. Qed.

Lemma lxor_1_neq b : Z.lxor b 1 ≠ b.
Proof.
  intros Heq. pose proof (lxor_1_bit0 b) as Hb. rewrite Heq in Hb.
  by destruct (Z.testbit b 0).
Qed.

(** X1. Flipping the IV is its own inverse and never a no-op. For a
    non-empty IV, [IV[0] ^= 1] gives an IV of the same length that is
    different from the one it started from, agrees with it after the
    first byte, is still made of bytes, and flips back to the original;
    only the empty IV cannot be flipped. *)
Theorem flipIV_flips_back (iv : bytes) :
  (flipIV iv = None ↔ iv = [])
  ∧ (∀ iv', flipIV iv = Some iv' →
       iv' ≠ iv
       ∧ flipIV iv' = Some iv
       ∧ length iv' = length iv
       ∧ drop 1 iv' = drop 1 iv
       ∧ (Forall (λ b, 0 ≤ b < 256) iv → Forall (λ b, 0 ≤ b < 256) iv')).
Proof.
  split.
  - by destruct iv.
  - intros iv'. destruct iv as [|b rest]; [done|]. simpl. intros [= <-].
    split_and!; try done.
    + intros [= Heq]. by apply lxor_1_neq in Heq.
    + simpl. by rewrite lxor_1_twice.
    + intros Hall. apply Forall_cons in Hall as [Hb Hrest].
      apply Forall_cons. split; [by apply lxor_1_byte|done].
Qed.

(** X2. What a request carries. If [sendTaskList] sends a request, then
    the organization behind the pointer exists and the request goes to
    its uri; the session key is the first 16 bytes of the random source
    and the IV the next 16, and exactly these 32 bytes are consumed; the
    ticket is the one [createTicket] returns for the whole list, expiring
    three hours after the current time, named after the gateway's signing
    key and signed over the serialization of the same ticket with an
    empty signature; and the request's parameters are the first task's
    source, the session key wrapped for the key filed under that source,
    the IV, and the serialized signed ticket encrypted under session key
    and IV. *)
Theorem sendTaskList_request_contents tasks org w r w' :
  sendTaskList g tasks org w = (r, w') →
  sent w' ≠ sent w →
  ∃ o task0 ticket key,
    deref g org = Some o
    ∧ head tasks = Some task0
    ∧ keys w !! Task.Source task0 = Some key
    ∧ (32 ≤ length (entropy w))%nat
    ∧ entropy w' = drop 32 (entropy w)
    ∧ createTicket g tasks w = (Ret (ticket, None), w)
    ∧ ticket
      = Ticket.mk (now w + 3 * 3600 * 1000000000) tasks (ticketSignKeyName g)
          (Sign (Marshal_Ticket (unsigned_ticket g w tasks)).1 (ticketSignKey g)).1
    ∧ sent w'
      = sent w ++
        [ {| req_uri := Organization.Uri o;
             req_query :=
               [("KeyFingerprint", Task.Source task0);
                ("EncryptedKey",
                 EncodeToString (RsaEncrypt (take 16 (entropy w)) key).1);
                ("IV", EncodeToString (take 16 (drop 16 (entropy w))));
                ("Encrypted",
                 EncodeToString
                   (AesEncrypt (Marshal_Ticket ticket).1 (take 16 (entropy w))
                      (take 16 (drop 16 (entropy w)))).1)] |} ].
Proof.
  intros Hs Hsent.
  destruct (deref g org) as [o|] eqn:Ho;
    [|unfold sendTaskList in Hs; rewrite Ho in Hs; by injection Hs as <- <-].
  destruct tasks as [|task0 rest];
    [unfold sendTaskList in Hs; rewrite Ho in Hs; by injection Hs as <- <-|].
  destruct (decide (32 ≤ length (entropy w))%nat) as [H32|H32]; last first.
  { destruct (sendTaskList_short g task0 rest org o w Ho) as [e He]; [lia|].
    rewrite He in Hs. by injection Hs as <- <-. }
  rewrite (sendTaskList_steps g _ _ _ o) in Hs by done.
  rewrite createTicket_unfold.
  destruct (Marshal_Ticket (unsigned_ticket g w (task0 :: rest)))
    as [msg [e|]] eqn:Hmsg; [by injection Hs as <- <-|].
  destruct (Sign msg (ticketSignKey g)) as [sig [e|]] eqn:Hsig;
    [by injection Hs as <- <-|].
  destruct (Marshal_Ticket (Ticket.mk _ _ _ sig)) as [ticketM [e|]] eqn:HM;
    [by injection Hs as <- <-|].
  destruct (encryptTicket_inv (keys w) ticketM (Task.Source task0)
              (take 16 (entropy w)) (take 16 (drop 16 (entropy w))))
    as [[e He]|(key & Hkey & _ & _ & He)]; rewrite He in Hs;
    [by injection Hs as <- <-|].
  rewrite requestTaskList_unfold in Hs.
  destruct (NewRequest _); [by injection Hs as <- <-|]. simpl in Hs.
  exists o, task0, (Ticket.mk (now w + validity) (task0 :: rest)
                      (ticketSignKeyName g) sig), key.
  assert (entropy w' = drop 32 (entropy w)
          ∧ sent w' = sent w ++
              [request_of (Organization.Uri o)
                 (Encrypted.mk (Task.Source task0)
                    (RsaEncrypt (take 16 (entropy w)) key).1
                    (AesEncrypt ticketM (take 16 (entropy w))
                       (take 16 (drop 16 (entropy w)))).1
                    (take 16 (drop 16 (entropy w))))]) as [Hent Hreq].
  { destruct (partner _ _ _); [by injection Hs as <- <-|].
    destruct (flipIV _); by injection Hs as <- <-. }
  simpl. rewrite HM, Hsig. simpl. by split_and!.
Qed.

(** X3. The random source is drawn from before anything else can fail.
    With an organization behind the pointer and a task in the list: when
    the source holds at least 32 bytes, [sendTaskList] consumes exactly 32
    of them on every path, also when it then fails; when it holds fewer,
    the call returns an error and no answer, sends nothing, and leaves
    the source empty. *)
Theorem sendTaskList_entropy tasks org w :
  is_Some (deref g org) → tasks ≠ [] →
  ((32 ≤ length (entropy w))%nat →
     entropy (sendTaskList g tasks org w).2 = drop 32 (entropy w))
  ∧ ((length (entropy w) < 32)%nat →
       (∃ e, (sendTaskList g tasks org w).1 = Ret (Some e, []))
       ∧ sent (sendTaskList g tasks org w).2 = sent w
       ∧ entropy (sendTaskList g tasks org w).2 = []).
Proof.
  intros [o Ho] Hne. destruct tasks as [|task0 rest]; [done|]. split.
  - intros H32. rewrite (sendTaskList_steps g _ _ _ o) by done.
    destruct (Marshal_Ticket _) as [msg [e|]]; [done|].
    destruct (Sign msg _) as [sig [e|]]; [done|].
    destruct (Marshal_Ticket _) as [ticketM [e|]]; [done|].
    destruct (encryptTicket _ _ _ _ _) as [[et|] [e|]]; try done.
    rewrite requestTaskList_unfold.
    destruct (NewRequest _); [done|]. simpl.
    destruct (partner _ _ _); [done|]. by destruct (flipIV _).
  - intros Hlt. destruct (sendTaskList_short g task0 rest org o w Ho Hlt) as [e ->].
    simpl. split_and!; eauto.
Qed.

(** X4. A missing key stops the dispatch before anything is sent. When
    no key is filed under the first task's source, [sendTaskList] returns
    an error and no answer and sends no request; if the random source
    holds 32 bytes and the ticket is created and serialized, that error
    is "Public Key not found". *)
Theorem sendTaskList_missing_key task0 rest org w :
  is_Some (deref g org) →
  keys w !! Task.Source task0 = None →
  ∃ e w',
    sendTaskList g (task0 :: rest) org w = (Ret (Some e, []), w')
    ∧ sent w' = sent w
    ∧ ((32 ≤ length (entropy w))%nat →
       ∀ ticket,
         createTicket g (task0 :: rest) w = (Ret (ticket, None), w) →
         (Marshal_Ticket ticket).2 = None →
         e = errors_New "Public Key not found").
Proof.
  intros [o Ho] Hkey.
  destruct (decide (32 ≤ length (entropy w))%nat) as [H32|H32]; last first.
  { destruct (sendTaskList_short g task0 rest org o w Ho) as [e ->]; [lia|].
    eexists _, _. split_and!; [done|done|lia]. }
  rewrite (sendTaskList_steps g _ _ _ o) by done. rewrite createTicket_unfold.
  destruct (Marshal_Ticket (unsigned_ticket g w (task0 :: rest)))
    as [msg [e|]]; [eexists _, _; split_and!; [done|done|by intros _ ticket [=]]|].
  destruct (Sign msg (ticketSignKey g)) as [sig [e|]];
    [eexists _, _; split_and!; [done|done|by intros _ ticket [=]]|].
  simpl.
  destruct (Marshal_Ticket (Ticket.mk _ _ _ sig)) as [ticketM [e|]] eqn:HM.
  { eexists _, _; split_and!; [done|done|].
    intros _ ticket [= <-]. by rewrite HM. }
  unfold encryptTicket, encryptKey. rewrite Hkey.
  eexists _, _; split_and!; done.
Qed.

End SendingMore.

(** ** A whole batch: requests, frame, outages *)

Section HandlingMore.
Context `{Tasking} `{GoLib} (g : Globals).

Implicit Types (w : World) (tasks tasklist : list Task.t) (org : OrgPtr).
Implicit Types (entries : list (OrgPtr * list Task.t)).

Lemma untouched_refl w : untouched w w.
Proof. unfold untouched. by split_and!. Qed.

Lemma untouched_trans w1 w2 w3 :
  untouched w1 w2 → untouched w2 w3 → untouched w1 w3.
Proof.
  intros (Hk & Hn & Hp & Hs & Hm & He & Hq) (Hk' & Hn' & Hp' & Hs' & Hm' & He' & Hq').
  unfold untouched. split_and!; try congruence; by etrans.
Qed.

Lemma framed_untouched uri w w' : framed uri w w' → untouched w w'.
Proof.
  intros (Hk & Hn & Hp & Hs & Hm & He & Hq). unfold untouched.
  split_and!; try done.
  destruct Hq as [->|(req & -> & _)]; [done|]. by apply prefix_app_r.
Qed.

Lemma entry_uris_cons org tasklist entries :
  entry_uris g ((org, tasklist) :: entries)
  = match deref g org with
    | Some o => Organization.Uri o :: entry_uris g entries
    | None => entry_uris g entries
    end.
Proof. unfold entry_uris. simpl. by destruct (deref g org). Qed.

(** The second loop sends at most one request per entry, to the entry's
    organization, in the order of the entries. *)
Lemma dispatch_requests entries tskerrors w r w' :
  dispatch g entries tskerrors w = (r, w') →
  untouched w w'
  ∧ ∃ reqs, sent w' = sent w ++ reqs
            ∧ req_uri <$> reqs `sublist_of` entry_uris g entries.
Proof.
  revert tskerrors w. induction entries as [|[org tasklist] rest IH];
    intros tskerrors w.
  - simpl. intros [= <- <-]. split; [apply untouched_refl|].
    exists []. by rewrite app_nil_r.
  - destruct (sendTaskList g tasklist org w) as [[r1|] w1] eqn:Hs.
    + rewrite (dispatch_cons _ _ _ _ _ _ _ _ Hs). intros Hd.
      apply IH in Hd as (Hu & reqs & Hsent & Hsub).
      apply sendTaskList_framed in Hs as Hf.
      split; [by eapply untouched_trans; [eapply framed_untouched|]|].
      rewrite entry_uris_cons.
      destruct Hf as (_ & _ & _ & _ & _ & _ & [Hq|(req & Hq & Huri)]).
      * exists reqs. split; [congruence|].
        destruct (deref g org); [by apply sublist_cons|done].
      * exists (req :: reqs). split.
        { rewrite Hsent, Hq. by rewrite <- app_assoc. }
        destruct (deref g org) as [o|]; [|done].
        injection Huri as Huri. rewrite fmap_cons, Huri. by apply sublist_skip.
    + rewrite entry_uris_cons. cbn [dispatch]. unfold bind. rewrite Hs.
      intros [= <- <-].
      apply sendTaskList_framed in Hs as Hf.
      split; [by eapply framed_untouched|].
      destruct Hf as (_ & _ & _ & _ & _ & _ & [Hq|(req & Hq & Huri)]).
      * exists []. split; [by rewrite app_nil_r|apply sublist_nil_l].
      * exists [req]. split; [done|].
        destruct (deref g org) as [o|]; [|done].
        injection Huri as Huri. rewrite fmap_cons, Huri.
        apply sublist_skip, sublist_nil_l.
Qed.

Lemma handleTask_world tasksStr username password w r w' :
  handleTask g tasksStr username password w = (r, w') →
  untouched w w'
  ∧ ∃ reqs,
      sent w' = sent w ++ reqs
      ∧ ∀ tasks, Unmarshal_Tasks tasksStr = inr tasks →
          req_uri <$> reqs
            `sublist_of` entry_uris g (mapiter w _ (map_to_list (route_tasks g [] tasks).2)).
Proof.
  assert (untouched w w ∧ ∃ reqs : list Request,
            sent w = sent w ++ reqs
            ∧ ∀ tasks, Unmarshal_Tasks tasksStr = inr tasks →
                req_uri <$> reqs
                  `sublist_of` entry_uris g
                    (mapiter w _ (map_to_list (route_tasks g [] tasks).2))) as Hsame.
  { split; [apply untouched_refl|]. exists []. split; [by rewrite app_nil_r|].
    intros tasks _. apply sublist_nil_l. }
  destruct (authenticate g username password) as [u [e|]] eqn:Ha.
  { unfold handleTask. rewrite Ha. by intros [= <- <-]. }
  destruct (Unmarshal_Tasks tasksStr) as [e|tasks] eqn:Hu.
  { unfold handleTask. rewrite Ha, Hu. by intros [= <- <-]. }
  rewrite (handleTask_unfold _ _ _ _ tasks) by (by rewrite ?Ha).
  destruct (dispatch g _ _ w) as [r1 w1] eqn:Hd.
  apply dispatch_requests in Hd as (Hun & reqs & Hsent & Hsub).
  intros Heq. assert (w1 = w') as <- by (destruct r1; by injection Heq).
  split; [done|]. exists reqs. split; [done|]. by intros tasks' [= <-].
Qed.

Lemma entry_uris_length entries : (length (entry_uris g entries) ≤ length entries)%nat.
Proof.
  induction entries as [|[org tasklist] rest IH]; [done|].
  rewrite entry_uris_cons. destruct (deref g org); simpl; lia.
Qed.

(** X5. Requests go only where tasks go. For a batch that decodes, the
    requests [handleTask] sends are addressed, in the order in which the
    groups are visited, to organizations of visited groups, at most one
    request per group; so there are no more requests than groups, and
    each request goes to the uri of an organization to which a task of
    the batch is routed. *)
Theorem handleTask_requests tasksStr username password tasks w :
  mapiter_ok w →
  Unmarshal_Tasks tasksStr = inr tasks →
  ∃ reqs,
    sent (handleTask g tasksStr username password w).2 = sent w ++ reqs
    ∧ req_uri <$> reqs
        `sublist_of` entry_uris g (mapiter w _ (map_to_list (route_tasks g [] tasks).2))
    ∧ (length reqs ≤ size (route_tasks g [] tasks).2)%nat
    ∧ (∀ req, req ∈ reqs →
         ∃ org o task,
           deref g org = Some o ∧ req_uri req = Organization.Uri o
           ∧ task ∈ tasks ∧ routed_to g org task).
Proof.
  intros Hm Hu.
  destruct (handleTask g tasksStr username password w) as [r w'] eqn:Hh.
  apply handleTask_world in Hh as (_ & reqs & Hsent & Hsub).
  specialize (Hsub tasks Hu). exists reqs. split_and!; try done.
  - apply sublist_length in Hsub. rewrite length_fmap in Hsub.
    pose proof (entry_uris_length
      (mapiter w _ (map_to_list (route_tasks g [] tasks).2))) as Hle.
    rewrite (Permutation_length (Hm _ _)), length_map_to_list in Hle. lia.
  - intros req Hin.
    apply (list_elem_of_fmap_2 req_uri) in Hin.
    eapply elem_of_sublist in Hin; [|exact Hsub].
    apply list_elem_of_omap in Hin as ([org tasklist] & Hin & Hd).
    rewrite (Hm _ _) in Hin.
    apply elem_of_map_to_list, route_tasks_group in Hin as [Heq Hne].
    simpl in Hd. destruct (deref g org) as [o|] eqn:Ho; [|done].
    injection Hd as Hd.
    destruct tasklist as [|task tasklist]; [done|].
    assert (task ∈ filter (routed_to g org) tasks) as Hr by (rewrite <- Heq; left).
    apply list_elem_of_filter in Hr as [Hr Ht].
    by exists org, o, task.
Qed.

(** X6. [handleTask] reads its surroundings and writes little of them.
    Whatever the call does, the key store, the clock, the behaviour of
    partners and storage and the map iteration order are as before; the
    random source has only lost bytes from its front; and the list of
    requests sent has only grown at its end. *)
Theorem handleTask_leaves_world tasksStr username password w :
  keys (handleTask g tasksStr username password w).2 = keys w
  ∧ now (handleTask g tasksStr username password w).2 = now w
  ∧ partner (handleTask g tasksStr username password w).2 = partner w
  ∧ storage (handleTask g tasksStr username password w).2 = storage w
  ∧ mapiter (handleTask g tasksStr username password w).2 = mapiter w
  ∧ entropy (handleTask g tasksStr username password w).2 `suffix_of` entropy w
  ∧ sent w `prefix_of` sent (handleTask g tasksStr username password w).2.
Proof.
  destruct (handleTask g tasksStr username password w) as [r w'] eqn:Hh.
  by apply handleTask_world in Hh as [Hun _].
Qed.

Lemma TaskStruct_SendError e tasklist :
  TaskError.TaskStruct <$> (SendError e <$> tasklist) = tasklist.
Proof. rewrite <- list_fmap_compose. apply list_fmap_id. Qed.

Lemma TaskStruct_ParseError e tasklist :
  TaskError.TaskStruct <$> (ParseError e <$> tasklist) = tasklist.
Proof. rewrite <- list_fmap_compose. apply list_fmap_id. Qed.

Lemma TaskStruct_NoRouteError tasks :
  TaskError.TaskStruct <$> (NoRouteError <$> tasks) = tasks.
Proof. rewrite <- list_fmap_compose. apply list_fmap_id. Qed.

(** With no answer that decodes, the block of a group names its tasks. *)
Lemma sendTaskList_unanswered tasklist org w r w1 :
  unanswered w →
  sendTaskList g tasklist org w = (Ret r, w1) →
  TaskError.TaskStruct <$> block_of r tasklist = tasklist.
Proof.
  intros Hun Hs.
  apply sendTaskList_inv in Hs
    as [(? & _)|[(e & [= ->] & _)|
        (o & task0 & rest & symKey & iv & ticket & ticketM & et & w2
           & _ & _ & _ & _ & _ & _ & _ & _ & Hp & Hreq)]]; [done| |].
  { simpl. apply TaskStruct_SendError. }
  rewrite requestTaskList_unfold in Hreq.
  destruct (NewRequest _);
    [injection Hreq as <- <-; simpl; apply TaskStruct_SendError|].
  simpl in Hreq. rewrite Hp in Hreq.
  specialize (Hun (sent w2) (request_of (Organization.Uri o) et)).
  destruct (partner w (sent w2) _) as [e|body];
    [injection Hreq as <- <-; simpl; apply TaskStruct_SendError|].
  destruct (flipIV _) as [iv'|]; [|done].
  injection Hreq as <- <-. simpl.
  destruct (Hun symKey iv') as [e ->]. apply TaskStruct_ParseError.
Qed.

Lemma block_of_undecoded (r : option error * bytes) tasklist :
  undecoded r → TaskError.TaskStruct <$> block_of r tasklist = tasklist.
Proof.
  destruct r as [[e|] out]; simpl.
  - intros _. apply TaskStruct_SendError.
  - destruct (Unmarshal_TaskErrors out); [|done].
    intros _. apply TaskStruct_ParseError.
Qed.

Lemma Dispatched_none_decoded w entries blocks w' :
  Dispatched g w entries blocks w' →
  none_decoded g entries w →
  TaskError.TaskStruct <$> concat blocks = concat (entries.*2).
Proof.
  induction 1 as [|w org tasklist r w1 rest blocks w2 Hs _ IH]; [done|].
  cbn [none_decoded]. rewrite Hs. intros [Hr Hrest].
  simpl. rewrite fmap_app, (block_of_undecoded r tasklist Hr).
  f_equal. by apply IH.
Qed.

(** A world in which no answer can decode is one along which none does. *)
Lemma unanswered_none_decoded entries w :
  unanswered w → none_decoded g entries w.
Proof.
  revert w. induction entries as [|[org tasklist] rest IH]; intros w Hun; [done|].
  cbn [none_decoded].
  destruct (sendTaskList g tasklist org w) as [[r|] w1] eqn:Hs; [|done].
  split.
  - destruct r as [[e|] out]; simpl; [done|].
    destruct (Unmarshal_TaskErrors out) as [e|l] eqn:Hd; [done|].
    apply sendTaskList_inv in Hs
      as [(? & _)|[(e & [=] & _)|
          (o & task0 & rest0 & symKey & iv & ticket & ticketM & et & w2
             & _ & _ & _ & _ & _ & _ & _ & _ & Hp & Hreq)]]; [done|].
    rewrite requestTaskList_unfold in Hreq.
    destruct (NewRequest _); [done|]. simpl in Hreq. rewrite Hp in Hreq.
    specialize (Hun (sent w2) (request_of (Organization.Uri o) et)).
    destruct (partner w (sent w2) _) as [e|body]; [done|].
    destruct (flipIV _) as [iv'|]; [|done].
    injection Hreq as Hout _. destruct (Hun symKey iv') as [e He].
    rewrite Hout in He. congruence.
  - apply IH. apply sendTaskList_framed in Hs as (_ & _ & Hp & _).
    unfold unanswered. by rewrite Hp.
Qed.

(** X7. When no answer decodes, every task is still accounted for. For
    an authenticated batch that decodes, if along the run of the second
    loop every group's send fails or is answered by bytes that, decrypted
    as the gateway decrypts them, are not a list of task errors, then
    [handleTask] returns no error and a list with exactly one record for
    each task of the batch: the tasks named by the records are a
    rearrangement of the batch. *)
Theorem handleTask_unanswered tasksStr username password tasks w :
  mapiter_ok w → routes_valid g →
  (authenticate g username password).2 = None →
  Unmarshal_Tasks tasksStr = inr tasks →
  none_decoded g (mapiter w _ (map_to_list (route_tasks g [] tasks).2)) w →
  ∃ tskerrors w',
    handleTask g tasksStr username password w = (Ret (None, Some tskerrors), w')
    ∧ TaskError.TaskStruct <$> tskerrors ≡ₚ tasks
    ∧ length tskerrors = length tasks.
Proof.
  intros Hm Hv Ha Hu Hun.
  destruct (handleTask_dispatched g tasksStr username password tasks w Hm Hv Ha Hu)
    as (blocks & w' & HD & Hh).
  eexists _, w'. split; [exact Hh|].
  assert (TaskError.TaskStruct <$>
            ((NoRouteError <$> filter (unrouted g) tasks) ++ concat blocks)
          ≡ₚ tasks) as Hperm.
  { rewrite fmap_app, (Dispatched_none_decoded _ _ _ _ HD Hun), (Hm _ _).
    rewrite <- route_tasks_errors.
    pose proof (route_fold_perm g ([], ∅) tasks) as Hp. simpl in Hp.
    rewrite grouped_empty in Hp. exact Hp. }
  split; [done|].
  apply Permutation_length in Hperm. by rewrite length_fmap in Hperm.
Qed.

(** X8. A task for which no key is on file. For an authenticated batch
    of one task whose source is routed to an organization but has no key
    in the store, with 32 random bytes at hand and a ticket that is
    created and serialized, [handleTask] returns no error and a list of
    one record, naming the task, with the message "Error while sending
    task! Public Key not found"; no request is sent. *)
Theorem handleTask_missing_key tasksStr username password task org ticket w :
  mapiter_ok w →
  (authenticate g username password).2 = None →
  Unmarshal_Tasks tasksStr = inr [task] →
  srcRouter g !! Task.Source task = Some org →
  is_Some (deref g org) →
  keys w !! Task.Source task = None →
  (32 ≤ length (entropy w))%nat →
  createTicket g [task] w = (Ret (ticket, None), w) →
  (Marshal_Ticket ticket).2 = None →
  handleTask g tasksStr username password w
  = (Ret (None,
          Some [TaskError.mk task
                  (errors_New "Error while sending task! Public Key not found")]),
     set_entropy (drop 32 (entropy w)) w)
  ∧ sent (set_entropy (drop 32 (entropy w)) w) = sent w.
Proof.
  intros Hm Ha Hu Hr [o Ho] Hkey H32 Hct HM. split; [|done].
  rewrite (handleTask_unfold _ _ _ _ [task]) by done.
  assert (route_tasks g [] [task] = ([], {[org := [task]]})) as ->.
  { unfold route_tasks. simpl. rewrite Hr. by rewrite lookup_empty. }
  simpl. rewrite map_to_list_singleton.
  assert (mapiter w _ [(org, [task])] = [(org, [task])]) as ->
    by (by apply Permutation_singleton_r).
  simpl. unfold bind at 1.
  rewrite (sendTaskList_steps _ _ _ _ o) by done.
  rewrite createTicket_unfold in Hct.
  destruct (Marshal_Ticket (unsigned_ticket g w [task])) as [msg [e|]]; [done|].
  destruct (Sign msg (ticketSignKey g)) as [sig [e|]]; [done|].
  simpl in Hct. injection Hct as <-.
  destruct (Marshal_Ticket _) as [ticketM [e|]]; [done|].
  unfold encryptTicket, encryptKey. rewrite Hkey. done.
Qed.

(** X9. A batch nobody is responsible for. For an authenticated batch
    that decodes and in which no task's source has an entry in the
    routing index (the empty batch included), [handleTask] returns no
    error and one "No route for source!" record per task, in batch
    order, and the world is as before: nothing is drawn, nothing sent. *)
Theorem handleTask_all_unrouted tasksStr username password tasks w :
  mapiter_ok w →
  (authenticate g username password).2 = None →
  Unmarshal_Tasks tasksStr = inr tasks →
  Forall (unrouted g) tasks →
  handleTask g tasksStr username password w
  = (Ret (None, Some (NoRouteError <$> tasks)), w).
Proof.
  intros Hm Ha Hu Hall.
  rewrite (handleTask_unfold _ _ _ _ tasks) by done.
  assert ((route_tasks g [] tasks).2 = ∅) as ->.
  { apply map_empty. intros org. rewrite route_tasks_lookup.
    destruct (filter (routed_to g org) tasks) as [|task l] eqn:Hf; [done|].
    assert (task ∈ filter (routed_to g org) tasks) as Hin by (rewrite Hf; left).
    apply list_elem_of_filter in Hin as [Hr Hin].
    rewrite Forall_forall in Hall. specialize (Hall task Hin).
    unfold routed_to, unrouted in *. congruence. }
  rewrite map_to_list_empty.
  assert (mapiter w (OrgPtr * list Task.t) [] = []) as ->
    by (by apply Permutation_nil_r).
  simpl. unfold ret. rewrite route_tasks_errors.
  assert (filter (unrouted g) tasks = tasks) as ->; [|done].
  clear -Hall. induction Hall as [|task tasks Ht _ IH]; [done|].
  rewrite filter_cons, decide_True by done. by rewrite IH.
Qed.

End HandlingMore.

(** ** Start-up: which organization, which user *)

Section StartupMore.
Context `{Tasking}.

Lemma insert_sources_lookup (num : OrgPtr) (srcs : list string)
    (router : gmap string OrgPtr) (src : string) :
  foldl (λ r s, <[s := num]> r) router srcs !! src
  = if decide (src ∈ srcs) then Some num else router !! src.
Proof.
  revert router. induction srcs as [|s srcs IH]; intros router; cbn [foldl].
  - case_decide as Hin; [by apply elem_of_nil in Hin|done].
  - rewrite IH, lookup_insert.
    destruct (decide (src ∈ s :: srcs)) as [Hin|Hin];
      destruct (decide (src ∈ srcs)) as [Hin'|Hin']; try done.
    + apply elem_of_cons in Hin as [->|?]; [|done]. by rewrite decide_True.
    + exfalso. apply Hin. by right.
    + rewrite decide_False; [done|]. intros ->. apply Hin. by left.
Qed.

Lemma declaring_snoc src orgs org :
  declaring src (orgs ++ [org])
  = declaring src orgs
    ++ (if decide (src ∈ Organization.Sources org) then [length orgs] else []).
Proof.
  unfold declaring. rewrite imap_app, filter_app, fmap_app. f_equal.
  simpl. rewrite Nat.add_0_r, filter_cons. simpl.
  by destruct (decide (src ∈ Organization.Sources org)).
Qed.

Lemma named_snoc name orgs org :
  named name (orgs ++ [org])
  = named name orgs
    ++ (if decide (Organization.Name org = name) then [length orgs] else []).
Proof.
  unfold named. rewrite imap_app, filter_app, fmap_app. f_equal.
  simpl. rewrite Nat.add_0_r, filter_cons. simpl.
  by destruct (decide (Organization.Name org = name)).
Qed.

Lemma initSourceRouting_fold (c : config) (orgs : list Organization.t) :
  let st : gmap string OrgPtr * option OrgPtr :=
    foldl (λ '(router, own) '(num, org),
             (foldl (λ r src, <[src := num]> r) router (Organization.Sources org),
              if decide (Organization.Name org = OwnOrganization c)
              then Some num else own))
          (∅, None) (imap pair orgs) in
  (∀ src, st.1 !! src = last (declaring src orgs))
  ∧ st.2 = last (named (OwnOrganization c) orgs).
Proof.
  induction orgs as [|org orgs IH] using rev_ind.
  - split; [intros src; simpl; by rewrite lookup_empty|done].
  - cbv zeta in *. rewrite imap_app, foldl_app. cbn [imap foldl]. rewrite Nat.add_0_r.
    destruct (foldl _ (∅, None) (imap pair orgs)) as [router own].
    destruct IH as [IHr IHo]. cbn [fst snd] in *. split.
    + intros src. rewrite insert_sources_lookup, declaring_snoc, last_app, IHr.
      by destruct (decide (src ∈ Organization.Sources org)).
    + rewrite named_snoc, last_app, IHo.
      by destruct (decide (Organization.Name org = OwnOrganization c)).
Qed.

Lemma declaring_elem src orgs i :
  i ∈ declaring src orgs ↔ ∃ org, orgs !! i = Some org ∧ src ∈ Organization.Sources org.
Proof.
  unfold declaring. rewrite list_elem_of_fmap. split.
  - intros ([j org] & -> & Hin). apply list_elem_of_filter in Hin as [Hs Hin].
    apply list_elem_of_lookup in Hin as [k Hk].
    rewrite list_lookup_imap in Hk.
    destruct (orgs !! k) as [o|] eqn:Ho; [|done].
    injection Hk as <- <-. by exists o.
  - intros (org & Ho & Hs). exists (i, org). split; [done|].
    apply list_elem_of_filter. split; [done|].
    apply list_elem_of_lookup. exists i. by rewrite list_lookup_imap, Ho.
Qed.

Lemma named_elem name orgs i :
  i ∈ named name orgs ↔ ∃ org, orgs !! i = Some org ∧ Organization.Name org = name.
Proof.
  unfold named. rewrite list_elem_of_fmap. split.
  - intros ([j org] & -> & Hin). apply list_elem_of_filter in Hin as [Hs Hin].
    apply list_elem_of_lookup in Hin as [k Hk].
    rewrite list_lookup_imap in Hk.
    destruct (orgs !! k) as [o|] eqn:Ho; [|done].
    injection Hk as <- <-. by exists o.
  - intros (org & Ho & Hs). exists (i, org). split; [done|].
    apply list_elem_of_filter. split; [done|].
    apply list_elem_of_lookup. exists i. by rewrite list_lookup_imap, Ho.
Qed.

Lemma declaring_last_max src orgs i j :
  last (declaring src orgs) = Some i → j ∈ declaring src orgs → (j ≤ i)%nat.
Proof.
  revert i. induction orgs as [|org orgs IH] using rev_ind; intros i.
  - unfold declaring. simpl. by intros _ ?%elem_of_nil.
  - rewrite declaring_snoc, last_app.
    destruct (decide (src ∈ Organization.Sources org)) as [Hs|Hs]; simpl.
    + intros [= <-] [Hin|Hin]%elem_of_app.
      * apply declaring_elem in Hin as (o & Ho & _).
        apply lookup_lt_Some in Ho. lia.
      * apply list_elem_of_singleton in Hin. lia.
    + rewrite app_nil_r. apply IH.
Qed.

Lemma named_last_max name orgs i j :
  last (named name orgs) = Some i → j ∈ named name orgs → (j ≤ i)%nat.
Proof.
  revert i. induction orgs as [|org orgs IH] using rev_ind; intros i.
  - unfold named. simpl. by intros _ ?%elem_of_nil.
  - rewrite named_snoc, last_app.
    destruct (decide (Organization.Name org = name)) as [Hs|Hs]; simpl.
    + intros [= <-] [Hin|Hin]%elem_of_app.
      * apply named_elem in Hin as (o & Ho & _).
        apply lookup_lt_Some in Ho. lia.
      * apply list_elem_of_singleton in Hin. lia.
    + rewrite app_nil_r. apply IH.
Qed.

(** X13. Later organizations win. After [initSourceRouting], a source
    is routed to organization number [i] exactly when that organization
    lists the source and no organization after it in
    [conf.Organizations] does; [ownOrganization] points to number [i]
    exactly when that organization is named [conf.OwnOrganization] and
    none after it is. *)
Theorem initSourceRouting_last_wins (c : config) (i : OrgPtr) :
  (∀ src,
     (initSourceRouting c).1 !! src = Some i
     ↔ (∃ org, Organizations c !! i = Some org ∧ src ∈ Organization.Sources org)
       ∧ (∀ j org, Organizations c !! j = Some org →
            src ∈ Organization.Sources org → (j ≤ i)%nat))
  ∧ ((initSourceRouting c).2 = Some i
     ↔ (∃ org, Organizations c !! i = Some org
               ∧ Organization.Name org = OwnOrganization c)
       ∧ (∀ j org, Organizations c !! j = Some org →
            Organization.Name org = OwnOrganization c → (j ≤ i)%nat)).
Proof.
  unfold initSourceRouting.
  destruct (initSourceRouting_fold c (Organizations c)) as [Hr Ho].
  cbv zeta in Hr, Ho. split.
  - intros src. rewrite Hr. split.
    + intros Hl. split; [by apply (proj1 (declaring_elem _ _ _)), last_Some_elem_of|].
      intros j org Hj Hs. apply (declaring_last_max src (Organizations c)); [done|].
      apply declaring_elem. eauto.
    + intros [Hi Hmax]. apply declaring_elem in Hi.
      destruct (last (declaring src (Organizations c))) as [k|] eqn:Hk.
      * f_equal. apply Nat.le_antisymm.
        -- apply last_Some_elem_of, declaring_elem in Hk as (org & Hk & Hs).
           by apply (Hmax k org).
        -- by apply (declaring_last_max src (Organizations c)).
      * apply last_None in Hk. rewrite Hk in Hi. by apply elem_of_nil in Hi.
  - rewrite Ho. split.
    + intros Hl. split; [by apply (proj1 (named_elem _ _ _)), last_Some_elem_of|].
      intros j org Hj Hs.
      apply (named_last_max (OwnOrganization c) (Organizations c)); [done|].
      apply named_elem. eauto.
    + intros [Hi Hmax]. apply named_elem in Hi.
      destruct (last (named (OwnOrganization c) (Organizations c))) as [k|] eqn:Hk.
      * f_equal. apply Nat.le_antisymm.
        -- apply last_Some_elem_of, named_elem in Hk as (org & Hk & Hs).
           by apply (Hmax k org).
        -- by apply (named_last_max (OwnOrganization c) (Organizations c)).
      * apply last_None in Hk. rewrite Hk in Hi. by apply elem_of_nil in Hi.
Qed.

(** X14. What [Start] guarantees the request handlers. [Start] stops
    the process exactly when no organization is named
    [conf.OwnOrganization]. Otherwise the globals keep the configuration;
    [ownOrganization] points to an organization of that name; and a task
    is routed only to an organization that exists and lists the task's
    source. *)
Theorem Start_guarantees (c : config) (signKey : PrivateKey) (signKeyName : string) :
  (Start c signKey signKeyName = None
   ↔ ∀ org, org ∈ Organizations c → Organization.Name org ≠ OwnOrganization c)
  ∧ (∀ g, Start c signKey signKeyName = Some g →
       conf g = c
       ∧ (∃ own o, ownOrganization g = Some own ∧ deref g own = Some o
                   ∧ Organization.Name o = OwnOrganization c)
       ∧ (∀ org task, routed_to g org task →
            ∃ o, deref g org = Some o
                 ∧ Task.Source task ∈ Organization.Sources o)).
Proof.
  unfold Start.
  pose proof (initSourceRouting_fold c (Organizations c)) as [Hr Ho].
  cbv zeta in Hr, Ho. fold (initSourceRouting c) in Hr, Ho.
  destruct (initSourceRouting c) as [router own]. simpl in Hr, Ho. split.
  - destruct own as [own|]; split; try done.
    + intros Hall. symmetry in Ho. apply last_Some_elem_of, named_elem in Ho
        as (org & Hl & Hn).
      exfalso. apply (Hall org); [|done]. by eapply list_elem_of_lookup_2.
    + intros _ org Hin Hn. symmetry in Ho. apply last_None in Ho.
      apply list_elem_of_lookup in Hin as [i Hi].
      assert (i ∈ named (OwnOrganization c) (Organizations c)) as Hel
        by (apply named_elem; eauto).
      rewrite Ho in Hel. by apply elem_of_nil in Hel.
  - intros g. destruct own as [own|]; [|done]. intros [= <-]. simpl.
    split_and!; [done| |].
    + symmetry in Ho. apply last_Some_elem_of, named_elem in Ho as (o & Hl & Hn).
      by exists own, o.
    + intros org task Hrt. unfold routed_to in Hrt. simpl in Hrt.
      rewrite Hr in Hrt. apply last_Some_elem_of, declaring_elem in Hrt.
      exact Hrt.
Qed.

Lemma initUsers_fold (us : list User.t) (name : string) :
  foldl (λ m user, <[User.Name user := user]> m) (∅ : gmap string User.t) us !! name
  = last (users_named name us).
Proof.
  induction us as [|user us IH] using rev_ind; [simpl; by rewrite lookup_empty|].
  rewrite foldl_app. simpl. unfold users_named in *.
  rewrite filter_app, last_app, filter_cons, filter_nil, lookup_insert.
  by destruct (decide (User.Name user = name)).
Qed.

End StartupMore.

(** ** Logging in after start-up *)

Section LoginMore.
Context `{Tasking} `{GoLib}.

(** X15. Who can log in. With the user map [initUsers] builds,
    [authenticate] accepts a name and password exactly when the password
    matches the hash of the last listed user of that name; it then
    returns that user, whose name is the given one. An earlier entry of
    the same name is never consulted. *)
Theorem authenticate_started (c : config) (g : Globals) (username password : string) :
  users g = initUsers c →
  (∀ user,
     authenticate g username password = (Some user, None)
     ↔ last (users_named username (AllowedUsers c)) = Some user
       ∧ CompareHashAndPassword (User.PasswordHash user) password = None)
  ∧ (∀ user,
       authenticate g username password = (Some user, None) →
       User.Name user = username ∧ user ∈ AllowedUsers c)
  ∧ (users_named username (AllowedUsers c) = [] →
       authenticate g username password
       = (None, Some (errors_New "Authentication failed"))).
Proof.
  intros Hus.
  assert (users g !! username = last (users_named username (AllowedUsers c))) as Hl.
  { rewrite Hus. unfold initUsers. apply initUsers_fold. }
  assert (∀ user,
            authenticate g username password = (Some user, None)
            ↔ last (users_named username (AllowedUsers c)) = Some user
              ∧ CompareHashAndPassword (User.PasswordHash user) password = None)
    as Hiff.
  { intros user. unfold authenticate. rewrite Hl.
    destruct (last _) as [user'|]; [|by split; [|intros [? _]]].
    destruct (CompareHashAndPassword (User.PasswordHash user') password) eqn:Hc.
    - split; [done|]. intros [[= <-] Hc']. congruence.
    - split; [by intros [= <-]|]. by intros [[= <-] _]. }
  split_and!; [done| |].
  - intros user [Hlast _]%Hiff.
    apply last_Some_elem_of, list_elem_of_filter in Hlast. done.
  - intros Hnone. unfold authenticate. by rewrite Hl, Hnone.
Qed.

End LoginMore.

(** ** The sample proxy: failures and the quiet paths *)

Section ProxyMore.
Context `{Tasking} `{GoLib} (g : Globals).

(** X10. The proxy fails closed. [RoundTrip] returns no response and
    the error, and leaves the world as it was (no task is sent), when the
    request body cannot be read; when the credentials are rejected, the
    error then being "Authentication failed" whatever storage would have
    answered; when the forwarded request fails in transport; and when
    storage's body cannot be read. *)
Theorem RoundTrip_failures request w :
  (∀ e, Body request = inl e →
     RoundTrip g request w = (Ret (None, Some e), w))
  ∧ (∀ reqbuf,
       Body request = inr reqbuf →
       (authenticate g (FormValue request "username")
          (FormValue request "password")).2 ≠ None →
       RoundTrip g request w
       = (Ret (None, Some (errors_New "Authentication failed")), w))
  ∧ (∀ reqbuf user e,
       Body request = inr reqbuf →
       authenticate g (FormValue request "username") (FormValue request "password")
         = (Some user, None) →
       storage w {| Body := inr reqbuf; Form := Form request;
                    RawQuery := <["user_id" := [pretty (User.Id user)]]>
                                  (RawQuery request) |} = inl e →
       RoundTrip g request w = (Ret (None, Some e), w))
  ∧ (∀ reqbuf user response e,
       Body request = inr reqbuf →
       authenticate g (FormValue request "username") (FormValue request "password")
         = (Some user, None) →
       storage w {| Body := inr reqbuf; Form := Form request;
                    RawQuery := <["user_id" := [pretty (User.Id user)]]>
                                  (RawQuery request) |} = inr response →
       RespBody response = inl e →
       RoundTrip g request w = (Ret (None, Some e), w)).
Proof.
  unfold RoundTrip. split_and!.
  - by intros e ->.
  - intros reqbuf -> Hf.
    destruct (authenticate_cases g (FormValue request "username")
                (FormValue request "password")) as [[u Hu]|Hu];
      rewrite Hu in Hf |- *; done.
  - intros reqbuf user e -> -> Hst. unfold bind, get. by rewrite Hst.
  - intros reqbuf user response e -> -> Hst Hrb. unfold bind, get.
    by rewrite Hst, Hrb.
Qed.

(** X11. No automatic task without a reported success. When the upload
    is forwarded and storage's body is read, but the parsed
    [ResponseCode] is not 1 or no automatic tasks are configured,
    [RoundTrip] hands storage's response to the caller with no error and
    leaves the world as it was: no ticket is made, nothing is sent. *)
Theorem RoundTrip_without_auto_task request w reqbuf user response buf :
  Body request = inr reqbuf →
  authenticate g (FormValue request "username") (FormValue request "password")
    = (Some user, None) →
  storage w {| Body := inr reqbuf; Form := Form request;
               RawQuery := <["user_id" := [pretty (User.Id user)]]> (RawQuery request) |}
    = inr response →
  RespBody response = inr buf →
  ResponseCode (Unmarshal_storageResponse buf).1 ≠ 1 ∨ AutoTasks (conf g) = ∅ →
  RoundTrip g request w = (Ret (Some response, None), w).
Proof.
  intros Hb Ha Hst Hrb Hno. unfold RoundTrip. rewrite Hb, Ha.
  unfold bind at 1, get. rewrite Hst, Hrb.
  destruct (Unmarshal_storageResponse buf) as [resp err]; simpl in Hno.
  assert (Some {| StatusCode := StatusCode response; RespBody := inr buf |}
          = Some response) as ->.
  { destruct response; simpl in *. by rewrite Hrb. }
  unfold bind, ret.
  destruct (decide (ResponseCode resp = 1)) as [Hc|Hc]; [|done].
  destruct Hno as [Hno|Hno]; [done|].
  rewrite decide_False; [done|]. rewrite Hno, map_size_empty. by intros Hx.
Qed.

(** X12. The proxy changes the world only by an automatic task. If the
    world after [RoundTrip] differs from the world before, then the
    request body was read, the credentials were accepted, storage
    answered, its body was read and parsed with [ResponseCode] 1, the
    automatic tasks are not empty, [ownOrganization] is set, and the
    world is the one that the call of [sendTaskList] for the synthesized
    task left. *)
Theorem RoundTrip_changes_only_by_auto_task request w :
  (RoundTrip g request w).2 ≠ w →
  ∃ reqbuf user response buf own,
    Body request = inr reqbuf
    ∧ authenticate g (FormValue request "username") (FormValue request "password")
      = (Some user, None)
    ∧ storage w {| Body := inr reqbuf; Form := Form request;
                   RawQuery := <["user_id" := [pretty (User.Id user)]]>
                                 (RawQuery request) |} = inr response
    ∧ RespBody response = inr buf
    ∧ ResponseCode (Unmarshal_storageResponse buf).1 = 1
    ∧ AutoTasks (conf g) ≠ ∅
    ∧ ownOrganization g = Some own
    ∧ (RoundTrip g request w).2
      = (sendTaskList g
           [autoTask g (FormValue request "name") (FormValue request "source")
              (Unmarshal_storageResponse buf).1] own w).2.
Proof.
  unfold RoundTrip.
  destruct (Body request) as [e|reqbuf]; [done|].
  destruct (authenticate g _ _) as [[user|] [e|]]; try done.
  unfold bind at 1, get.
  destruct (storage w _) as [e|response] eqn:Hst; [done|].
  destruct (RespBody response) as [e|buf] eqn:Hrb; [done|].
  destruct (Unmarshal_storageResponse buf) as [resp err] eqn:Hun.
  unfold bind at 1.
  destruct (decide (ResponseCode resp = 1)) as [Hc|Hc]; [|done].
  destruct (decide (size (AutoTasks (conf g)) ≠ 0%nat)) as [Hs|Hs]; [|done].
  destruct (ownOrganization g) as [own|]; [|done].
  intros Hw. exists reqbuf, user, response, buf, own. rewrite Hun.
  split_and!; try done.
  - intros Hempty. apply Hs. rewrite Hempty. by rewrite map_size_empty.
  - unfold bind, get. rewrite Hst, Hrb, Hun.
    rewrite decide_True by done.
    by destruct (sendTaskList g _ own w) as [[r|] w'].
Qed.

End ProxyMore.

(** ** The key store callbacks and the task endpoint *)

Section EndpointsMore.
Context `{Tasking} `{GoLib} `{!KeyFiles} `{JsonErrors} (g : Globals).


Lemma write_all (rw : Reply) (tskerrors : list TaskError.t) :
  foldl (λ rw j, Write [10; 10] (Write (Marshal_TaskError j).1 rw)) rw tskerrors
  = {| Header := Header rw; Status := Status rw;
       Written := Written rw
                  ++ concat ((λ j, (Marshal_TaskError j).1 ++ [10; 10]) <$> tskerrors) |}.
Proof.
  revert rw. induction tskerrors as [|j tskerrors IH]; intros rw; simpl.
  - rewrite app_nil_r. by destruct rw.
  - rewrite IH. unfold Write; simpl. by rewrite <- !app_assoc.
Qed.

(** X17. What a client of the task endpoint gets. With a range order
    that visits every group once and valid routing pointers, the handler
    returns a reply carrying the header
    [Access-Control-Allow-Origin: *]. The status is 500 exactly when the
    credentials are rejected or the batch does not decode, and the body
    is then the error's text and a newline; rejected credentials give
    "Authentication failed" and leave the world untouched. Otherwise the
    status is 200 and the body is, for each record [handleTask]
    returned, in order, its serialization followed by two newlines. *)
Theorem httpRequestIncomingTask_reply (r : ProxyRequest) (w : World) :
  mapiter_ok w → routes_valid g →
  ∃ rw w',
    httpRequestIncomingTask g r w = (Ret rw, w')
    ∧ Header rw !! "Access-Control-Allow-Origin" = Some ["*"]
    ∧ (Status rw = 500
       ↔ (authenticate g (FormValue r "username") (FormValue r "password")).2 ≠ None
         ∨ ∃ e, Unmarshal_Tasks (FormValue r "task") = inl e)
    ∧ ((authenticate g (FormValue r "username") (FormValue r "password")).2 ≠ None →
         Written rw = bytes_of_string "Authentication failed" ++ [10] ∧ w' = w)
    ∧ (∀ e,
         (authenticate g (FormValue r "username") (FormValue r "password")).2 = None →
         Unmarshal_Tasks (FormValue r "task") = inl e →
         Written rw = bytes_of_string (Error e) ++ [10] ∧ w' = w)
    ∧ (∀ tskerrors,
         (handleTask g (FormValue r "task") (FormValue r "username")
            (FormValue r "password") w).1 = Ret (None, Some tskerrors) →
         Status rw = 200
         ∧ Written rw
           = concat ((λ j, (Marshal_TaskError j).1 ++ [10; 10]) <$> tskerrors)).
Proof.
  intros Hm Hv. unfold httpRequestIncomingTask, bind.
  destruct (authenticate g (FormValue r "username") (FormValue r "password"))
    as [u [ea|]] eqn:Ha.
  { rewrite handleTask_refused by (by rewrite Ha). eexists _, _.
    split; [done|]. simpl. split_and!; try done.
    split; [intros _; by left|done]. }
  destruct (Unmarshal_Tasks (FormValue r "task")) as [e|tasks] eqn:Hu.
  { unfold handleTask. rewrite Ha, Hu. eexists _, _.
    split; [done|]. simpl. split_and!; try done.
    - split; [intros _; right; by exists e|done].
    - by intros e' _ [= <-]. }
  destruct (handleTask_dispatched g (FormValue r "task") (FormValue r "username")
              (FormValue r "password") tasks w Hm Hv) as (blocks & w' & _ & ->);
    [by rewrite Ha|done|].
  eexists _, _. split; [done|]. rewrite write_all. simpl.
  split_and!; try done.
  - split; [done|]. by intros [?|[e [=]]].
  - by intros tskerrors [= <-].
Qed.

End EndpointsMore.

(** ** The further statements at work on the small deployment *)

Section ExamplesMore.
Import Demo DemoEndpoints.
#[local] Existing Instance tasking.
#[local] Existing Instance golib.
#[local] Existing Instance keyfiles.
#[local] Existing Instance jsonerrors.

Lemma org1_behind_pointer : is_Some (deref globals 0%nat).
Proof. eexists. vm_compute. reflexivity. Qed.

Lemma sendTaskList_request_contents_witness :
  ∃ o task0 ticket key,
    deref globals 0%nat = Some o
    ∧ head (batch "fb") = Some task0
    ∧ keys world !! Task.Source task0 = Some key
    ∧ (32 ≤ length (entropy world))%nat
    ∧ entropy (sendTaskList globals (batch "fb") 0%nat world).2 = drop 32 (entropy world)
    ∧ createTicket globals (batch "fb") world = (Ret (ticket, None), world)
    ∧ ticket
      = Ticket.mk (now world + 3 * 3600 * 1000000000) (batch "fb")
          (ticketSignKeyName globals)
          (Sign (Marshal_Ticket (unsigned_ticket globals world (batch "fb"))).1
             (ticketSignKey globals)).1
    ∧ sent (sendTaskList globals (batch "fb") 0%nat world).2
      = sent world ++
        [ {| req_uri := Organization.Uri o;
             req_query :=
               [("KeyFingerprint", Task.Source task0);
                ("EncryptedKey",
                 EncodeToString (RsaEncrypt (take 16 (entropy world)) key).1);
                ("IV", EncodeToString (take 16 (drop 16 (entropy world))));
                ("Encrypted",
                 EncodeToString
                   (AesEncrypt (Marshal_Ticket ticket).1 (take 16 (entropy world))
                      (take 16 (drop 16 (entropy world)))).1)] |} ].
Proof.
  apply (sendTaskList_request_contents globals (batch "fb") 0%nat world
           (sendTaskList globals (batch "fb") 0%nat world).1).
  - vm_compute. reflexivity.
  - vm_compute. discriminate.
Defined.

Lemma sendTaskList_entropy_witness :
  ((32 ≤ length (entropy drained))%nat →
     entropy (sendTaskList globals (batch "f") 0%nat drained).2
     = drop 32 (entropy drained))
  ∧ ((length (entropy drained) < 32)%nat →
       (∃ e, (sendTaskList globals (batch "f") 0%nat drained).1 = Ret (Some e, []))
       ∧ sent (sendTaskList globals (batch "f") 0%nat drained).2 = sent drained
       ∧ entropy (sendTaskList globals (batch "f") 0%nat drained).2 = []).
Proof.
  apply (sendTaskList_entropy globals (batch "f") 0%nat drained).
  - exact org1_behind_pointer.
  - vm_compute. discriminate.
Defined.

Lemma sendTaskList_missing_key_witness :
  ∃ e w',
    sendTaskList globals (task_from "f" :: batch "b") 0%nat unkeyed
    = (Ret (Some e, []), w')
    ∧ sent w' = sent unkeyed
    ∧ ((32 ≤ length (entropy unkeyed))%nat →
       ∀ ticket,
         createTicket globals (task_from "f" :: batch "b") unkeyed
         = (Ret (ticket, None), unkeyed) →
         (Marshal_Ticket ticket).2 = None →
         e = errors_New "Public Key not found").
Proof.
  apply (sendTaskList_missing_key globals (task_from "f") (batch "b") 0%nat unkeyed).
  - exact org1_behind_pointer.
  - vm_compute. reflexivity.
Defined.

Lemma outage_mapiter_ok : mapiter_ok outage.
Proof. intros A l. reflexivity. Qed.

Lemma unkeyed_mapiter_ok : mapiter_ok unkeyed.
Proof. intros A l. reflexivity. Qed.

Lemma handleTask_requests_witness :
  ∃ reqs,
    sent (handleTask globals "fxlb" "test" "secret" world).2 = sent world ++ reqs
    ∧ req_uri <$> reqs
        `sublist_of` entry_uris globals
          (mapiter world _ (map_to_list (route_tasks globals [] (batch "fxlb")).2))
    ∧ (length reqs ≤ size (route_tasks globals [] (batch "fxlb")).2)%nat
    ∧ (∀ req, req ∈ reqs →
         ∃ org o task,
           deref globals org = Some o ∧ req_uri req = Organization.Uri o
           ∧ task ∈ batch "fxlb" ∧ routed_to globals org task).
Proof.
  apply (handleTask_requests globals "fxlb" "test" "secret" (batch "fxlb") world).
  - exact world_mapiter_ok.
  - vm_compute. reflexivity.
Defined.

Lemma garbled_mapiter_ok : mapiter_ok garbled.
Proof. intros A l. reflexivity. Qed.

Lemma handleTask_unanswered_witness :
  ∃ tskerrors w',
    handleTask globals "fxlb" "test" "secret" garbled = (Ret (None, Some tskerrors), w')
    ∧ TaskError.TaskStruct <$> tskerrors ≡ₚ batch "fxlb"
    ∧ length tskerrors = length (batch "fxlb").
Proof.
  apply (handleTask_unanswered globals "fxlb" "test" "secret" (batch "fxlb") garbled).
  - exact garbled_mapiter_ok.
  - exact globals_routes_valid.
  - vm_compute. reflexivity.
  - vm_compute. reflexivity.
  - vm_compute. tauto.
Defined.

(** In that run one answer arrives and does not decode, and one send
    fails in transport. *)
Example garbled_run :
  TaskError.Error <$>
    default [] (match (handleTask globals "fxlb" "test" "secret" garbled).1 with
                | Ret (_, l) => l
                | Panic => None
                end)
  = [errors_New "No route for source!";
     errors_New "Error while parsing result! invalid character looking for beginning of value";
     errors_New "Error while sending task! dial tcp: connection refused";
     errors_New "Error while sending task! dial tcp: connection refused"].
Proof. vm_compute. reflexivity. Qed.

Lemma handleTask_missing_key_witness :
  handleTask globals "f" "test" "secret" unkeyed
  = (Ret (None,
          Some [TaskError.mk (task_from "f")
                  (errors_New "Error while sending task! Public Key not found")]),
     set_entropy (drop 32 (entropy unkeyed)) unkeyed)
  ∧ sent (set_entropy (drop 32 (entropy unkeyed)) unkeyed) = sent unkeyed.
Proof.
  apply (handleTask_missing_key globals "f" "test" "secret" (task_from "f") 0%nat
           (match (createTicket globals [task_from "f"] unkeyed).1 with
            | Ret (ticket, _) => ticket
            | Panic => unsigned_ticket globals unkeyed []
            end) unkeyed).
  - exact unkeyed_mapiter_ok.
  - vm_compute. reflexivity.
  - vm_compute. reflexivity.
  - vm_compute. reflexivity.
  - exact org1_behind_pointer.
  - vm_compute. reflexivity.
  - vm_compute. lia.
  - vm_compute. reflexivity.
  - vm_compute. reflexivity.
Defined.

Lemma handleTask_all_unrouted_witness :
  handleTask globals "xy" "test" "secret" world
  = (Ret (None, Some (NoRouteError <$> batch "xy")), world).
Proof.
  apply (handleTask_all_unrouted globals "xy" "test" "secret" (batch "xy") world).
  - exact world_mapiter_ok.
  - vm_compute. reflexivity.
  - vm_compute. reflexivity.
  - repeat constructor.
Defined.

Lemma RoundTrip_without_auto_task_witness :
  RoundTrip globals upload refusing
  = (Ret (Some {| StatusCode := 200; RespBody := inr [0] |}, None), refusing).
Proof.
  apply (RoundTrip_without_auto_task globals upload refusing
           (bytes_of "name=sample.exe&source=f&username=test&password=secret")
           (User.mk "test" "bcrypt:secret" 0) _ [0]).
  - reflexivity.
  - vm_compute. reflexivity.
  - reflexivity.
  - reflexivity.
  - left. vm_compute. discriminate.
Defined.

Lemma RoundTrip_changes_only_by_auto_task_witness :
  ∃ reqbuf user response buf own,
    Body upload = inr reqbuf
    ∧ authenticate globals (FormValue upload "username") (FormValue upload "password")
      = (Some user, None)
    ∧ storage world {| Body := inr reqbuf; Form := Form upload;
                       RawQuery := <["user_id" := [pretty (User.Id user)]]>
                                     (RawQuery upload) |} = inr response
    ∧ RespBody response = inr buf
    ∧ ResponseCode (Unmarshal_storageResponse buf).1 = 1
    ∧ AutoTasks (conf globals) ≠ ∅
    ∧ ownOrganization globals = Some own
    ∧ (RoundTrip globals upload world).2
      = (sendTaskList globals
           [autoTask globals (FormValue upload "name") (FormValue upload "source")
              (Unmarshal_storageResponse buf).1] own world).2.
Proof.
  apply (RoundTrip_changes_only_by_auto_task globals upload world).
  intros Heq. apply (f_equal sent) in Heq. vm_compute in Heq. discriminate.
Defined.

Lemma authenticate_started_witness :
  (∀ user,
     authenticate globals "test" "secret" = (Some user, None)
     ↔ last (users_named "test" (AllowedUsers cfg)) = Some user
       ∧ CompareHashAndPassword (User.PasswordHash user) "secret" = None)
  ∧ (∀ user,
       authenticate globals "test" "secret" = (Some user, None) →
       User.Name user = "test" ∧ user ∈ AllowedUsers cfg)
  ∧ (users_named "test" (AllowedUsers cfg) = [] →
       authenticate globals "test" "secret"
       = (None, Some (errors_New "Authentication failed"))).
Proof.
  apply (authenticate_started cfg globals "test" "secret").
  vm_compute. reflexivity.
Defined.

Lemma httpRequestIncomingTask_reply_witness :
  ∃ rw w',
    httpRequestIncomingTask globals (submission "fx" "test" "secret") world = (Ret rw, w')
    ∧ Header rw !! "Access-Control-Allow-Origin" = Some ["*"]
    ∧ (Status rw = 500
       ↔ (authenticate globals (FormValue (submission "fx" "test" "secret") "username")
            (FormValue (submission "fx" "test" "secret") "password")).2 ≠ None
         ∨ ∃ e, Unmarshal_Tasks (FormValue (submission "fx" "test" "secret") "task") = inl e)
    ∧ ((authenticate globals (FormValue (submission "fx" "test" "secret") "username")
          (FormValue (submission "fx" "test" "secret") "password")).2 ≠ None →
         Written rw = bytes_of_string "Authentication failed" ++ [10] ∧ w' = world)
    ∧ (∀ e,
         (authenticate globals (FormValue (submission "fx" "test" "secret") "username")
            (FormValue (submission "fx" "test" "secret") "password")).2 = None →
         Unmarshal_Tasks (FormValue (submission "fx" "test" "secret") "task") = inl e →
         Written rw = bytes_of_string (Error e) ++ [10] ∧ w' = world)
    ∧ (∀ tskerrors,
         (handleTask globals (FormValue (submission "fx" "test" "secret") "task")
            (FormValue (submission "fx" "test" "secret") "username")
            (FormValue (submission "fx" "test" "secret") "password") world).1
         = Ret (None, Some tskerrors) →
         Status rw = 200
         ∧ Written rw
           = concat ((λ j, (Marshal_TaskError j).1 ++ [10; 10]) <$> tskerrors)).
Proof.
  apply (httpRequestIncomingTask_reply globals (submission "fx" "test" "secret") world).
  - exact world_mapiter_ok.
  - exact globals_routes_valid.
Defined.

(** The reply to a batch of one routed and one unrouted task, when the
    partner's answer does not decode: two records. *)
Example reply_two_records :
  (httpRequestIncomingTask globals (submission "fx" "test" "secret") world).1
  = Ret {| Header := {["Access-Control-Allow-Origin" := ["*"]]};
           Status := 200;
           Written :=
             bytes_of_string "x:No route for source!" ++ [10; 10]
             ++ bytes_of_string
                  "f:Error while parsing result! unexpected end of JSON input"
             ++ [10; 10] |}.
Proof. vm_compute. reflexivity. Qed.

(** Two users of one name: the later entry is the one that logs in. *)
Example last_user_logs_in :
  initUsers {| HTTP := ""; SourcesKeysPath := ""; TicketSignKeyPath := "";
               Organizations := []; OwnOrganization := ""; StorageURI := "";
               AutoTasks := ∅; CertificatePath := ""; CertificateKeyPath := "";
               AllowedUsers := [User.mk "test" "bcrypt:old" 0;
                                User.mk "test" "bcrypt:new" 1] |} !! "test"
  = Some (User.mk "test" "bcrypt:new" 1).
Proof. vm_compute. reflexivity. Qed.

End ExamplesMore.
